(** * The connection-level exchange protocol of the CXO node

    A shallow embedding of [node/conn.go] (the [Conn] type: framing,
    request/response multiplexer, unsolicited handlers, close) and of the
    registries of [Node] that the handlers use, with the properties the
    specification states about them. *)

From Stdlib Require Import ZArith Lia.
From stdpp Require Import base gmap strings list sorting.

Local Open Scope Z_scope.

(** ** Basic data *)

(** A byte is an integer in [0, 256); a byte slice is a list of them. *)
Abbreviation bytes := (list Z).

(** [cipher.PubKey] and [cipher.SHA256] are fixed-size byte arrays; the blank
    value of either is the all-zero array. *)
Abbreviation PubKey := (list Z).
Abbreviation SHA256 := (list Z).

Definition blankPubKey : PubKey := replicate 33 0.

(** [uint32] arithmetic wraps around. *)
Definition u32 (v : Z) : Z := v mod 2 ^ 32.

(** Go's [error] values and results of fallible calls. *)
Inductive result (A : Type) : Type :=
| ok (a : A)
| fail (e : string).
Arguments ok {A} a.
Arguments fail {A} e.

(** ** Messages (package [msg], as [conn.go] uses it) *)

(** The message kinds [conn.go] builds and dispatches on. A [Root] carries
    the header fields [Feed], [Nonce], [Seq], the encoded body [Value] and the
    signature [Sig]. [Ping] and [Pong] stand for the kinds [handle] does not
    list. *)
Inductive Msg : Type :=
| Sub (Feed : PubKey)
| Unsub (Feed : PubKey)
| RqList
| List (Feeds : list PubKey)
| Root (Feed : PubKey) (Nonce Seq : Z) (Value Sig : bytes)
| RqObject (Key : SHA256)
| Object (Value : bytes)
| RqPreview (Feed : PubKey)
| Ok
| Err (e : string)
| Ping
| Pong.

(** The identity of a [*Conn] and of a reply channel. *)
Abbreviation ConnId := positive.
Abbreviation ChanId := nat.

(** ** Message codec: the frame [[seq][rseq][payload]] *)

Module Codec.

(** [binary.LittleEndian.PutUint32 b v] overwrites the first four bytes of
    [b]; [binary.LittleEndian.Uint32 b] reads them. *)
Definition le32 (v : Z) : bytes :=
  [Z.land v 255; Z.land (Z.shiftr v 8) 255;
   Z.land (Z.shiftr v 16) 255; Z.land (Z.shiftr v 24) 255].

Definition PutUint32 (b : bytes) (v : Z) : bytes := le32 v ++ drop 4 b.

Definition Uint32 (b : bytes) : Z :=
  Z.lor (Z.lor (Z.lor (nth 0 b 0) (Z.shiftl (nth 1 b 0) 8))
               (Z.shiftl (nth 2 b 0) 16))
        (Z.shiftl (nth 3 b 0) 24).

Section WithPayloadCodec.

(** [m.Encode()] and [msg.Decode] of package [msg], which is not among the
    sources: any payload codec. *)
Variable msg_Encode : Msg -> bytes.
Variable msg_Decode : bytes -> result Msg.

(** [encodeMsg]: [raw] has length 8; the second [PutUint32] is given the
    slice [raw[:4]], which aliases the first four bytes of [raw]. *)
Definition encodeMsg (seq rseq : Z) (m : Msg) : bytes :=
  let em := msg_Encode m in
  let raw := replicate 8 0 in
  let raw := PutUint32 raw seq in
  let raw := PutUint32 (take 4 raw) rseq ++ drop 4 raw in
  raw ++ em.

(** [decodeRaw] *)
Definition decodeRaw (raw : bytes) : result (Z * Z * Msg) :=
  if Z.of_nat (length raw) <? 9 then
    fail "invlaid messege received: too short"
  else
    let seq := Uint32 raw in
    let raw := drop 4 raw in
    let rseq := Uint32 raw in
    let raw := drop 4 raw in
    match msg_Decode raw with
    | ok m => ok (seq, rseq, m)
    | fail e => fail e
    end.

End WithPayloadCodec.

End Codec.


(** ** Package [data]: the sentinel errors [handleRoot] switches on *)

Module data.

Inductive Error : Type :=
| ErrNoSuchFeed
| ErrNoSuchHead
| ErrNotFound
| ErrOther (e : string).

Definition Error_text (e : Error) : string :=
  match e with
  | ErrNoSuchFeed => "no such feed"
  | ErrNoSuchHead => "no such head"
  | ErrNotFound => "not found"
  | ErrOther e => e
  end.

End data.

(** ** Package [registry]: the Root descriptor *)

Module registry.

(** The fields of [registry.Root] that [conn.go] reads; [Encoded] is the value
    of [r.Encode()]. *)
Record Root := mkRoot {
  Pub : PubKey;
  Nonce : Z;
  Seq : Z;
  Sig : bytes;
  IsFull : bool;
  Encoded : bytes
}.

Definition set_Sig (sig : bytes) (r : Root) : Root :=
  mkRoot (Pub r) (Nonce r) (Seq r) sig (IsFull r) (Encoded r).

Definition set_IsFull (b : bool) (r : Root) : Root :=
  mkRoot (Pub r) (Nonce r) (Seq r) (Sig r) b (Encoded r).

(** Two descriptors name the same Root of a head. *)
Definition same (r r' : Root) : bool :=
  bool_decide (Pub r = Pub r') && (Nonce r =? Nonce r') && (Seq r =? Seq r').

End registry.

(** Decoding of an encoded Root body and signature verification belong to
    packages outside the sources ([registry.DecodeRoot],
    [cipher.VerifySignature]): any pair of functions. *)
Class Crypto := {
  DecodeRoot : bytes -> result registry.Root;
  VerifySignature : PubKey -> bytes -> bytes -> bool
}.

(** ** Package [skyobject]: the Container interface the connection consumes *)

Module skyobject.

(** Modelled from the spec: the Container ([c.n.c] in [conn.go]) is not among
    the sources. It keeps the stored feeds, the heads of each feed and the
    Root descriptors it has stored, oldest first. *)
Record Container := mkContainer {
  feeds : gset PubKey;
  heads : gset (PubKey * Z);
  roots : list registry.Root
}.

Definition empty : Container := mkContainer ∅ ∅ [].

Definition rootsOf (pk : PubKey) (nonce : Z) (C : Container) : list registry.Root :=
  filter (λ r, registry.Pub r = pk ∧ registry.Nonce r = nonce) (roots C).

(** The stored Root with the highest [Seq]; of two with the same [Seq], the
    one stored later. *)
Fixpoint highest (rs : list registry.Root) : option registry.Root :=
  match rs with
  | [] => None
  | r :: rs' =>
      match highest rs' with
      | None => Some r
      | Some r' => if registry.Seq r' <? registry.Seq r then Some r else Some r'
      end
  end.

(** Modelled from the spec: [LastRoot(feed, nonce)] is the latest Root of the
    head, or one of the sentinel errors. *)
Definition LastRoot (C : Container) (pk : PubKey) (nonce : Z)
  : option registry.Root * option data.Error :=
  if decide (pk ∈ feeds C) then
    if decide ((pk, nonce) ∈ heads C) then
      match highest (rootsOf pk nonce C) with
      | Some r => (Some r, None)
      | None => (None, Some data.ErrNotFound)
      end
    else (None, Some data.ErrNoSuchHead)
  else (None, Some data.ErrNoSuchFeed).

(** Modelled from the spec: [LastRootSeq(feed, nonce)] is the highest [seq]
    stored for the head, or one of the sentinel errors. *)
Definition LastRootSeq (C : Container) (pk : PubKey) (nonce : Z)
  : Z * option data.Error :=
  match LastRoot C pk nonce with
  | (Some r, _) => (registry.Seq r, None)
  | (None, e) => (0, e)
  end.

(** Modelled from the spec: [ActiveHead(feed)] is the nonce of a head of the
    feed: here the head of the Root stored last, [0] for a feed without
    Roots. *)
Definition ActiveHead (C : Container) (pk : PubKey) : Z :=
  match reverse (filter (λ r, registry.Pub r = pk) (roots C)) with
  | r :: _ => registry.Nonce r
  | [] => 0
  end.

Definition has (C : Container) (r : registry.Root) : bool :=
  existsb (registry.same r) (roots C).

(** Modelled from the spec: [ReceivedRoot(sig, body)] verifies the signature
    and stores the descriptor. A descriptor the Container already has is
    returned as full and is not stored again. *)
Definition ReceivedRoot `{Crypto} (C : Container) (sig val : bytes)
  : Container * result registry.Root :=
  match DecodeRoot val with
  | fail e => (C, fail e)
  | ok r =>
      if VerifySignature (registry.Pub r) sig val then
        let r := registry.set_Sig sig r in
        if has C r then (C, ok (registry.set_IsFull true r))
        else
          let r := registry.set_IsFull false r in
          (mkContainer (feeds C)
                       ({[ (registry.Pub r, registry.Nonce r) ]} ∪ heads C)
                       (roots C ++ [r]),
           ok r)
      else (C, fail "invalid signature")
  end.

(** Modelled from the spec: [AddFeed(f)], [DelFeed(f)] manage the stored
    feeds; [DelFeed] fails if non-full Roots remain. *)
Definition AddFeed (C : Container) (pk : PubKey) : Container * option string :=
  (mkContainer ({[ pk ]} ∪ feeds C) (heads C) (roots C), None).

Definition DelFeed (C : Container) (pk : PubKey) : Container * option string :=
  if existsb (λ r, bool_decide (registry.Pub r = pk) && negb (registry.IsFull r))
             (roots C)
  then (C, Some "can't remove feed: it has non-full Root objects")
  else (mkContainer (feeds C ∖ {[ pk ]})
                    (filter (λ h, h.1 ≠ pk) (heads C))
                    (filter (λ r, registry.Pub r ≠ pk) (roots C)),
        None).

End skyobject.

(** ** The Node: shared feeds, subscribers, active connections, wanted objects *)

(** The options of [Config] the connection reads. *)
Record Config := mkConfig {
  Public : bool;
  ResponseTimeout : Z
}.

(** The [Node]: [feeds] maps a shared feed to the connections subscribed to
    it, [feedsl] and [connsl] are the copy-on-write snapshots ([nil] is the
    empty list), [wos] maps a wanted object to the connections waiting. *)
Record Node := mkNode {
  config : Config;
  so : skyobject.Container;
  feeds : gmap PubKey (gset ConnId);
  feedsl : list PubKey;
  conns : list ConnId;
  connsl : list ConnId;
  wos : gmap SHA256 (gset ConnId)
}.

Definition set_so (v : skyobject.Container) (n : Node) : Node :=
  mkNode (config n) v (feeds n) (feedsl n) (conns n) (connsl n) (wos n).
Definition set_feeds (v : gmap PubKey (gset ConnId)) (n : Node) : Node :=
  mkNode (config n) (so n) v (feedsl n) (conns n) (connsl n) (wos n).
Definition set_feedsl (v : list PubKey) (n : Node) : Node :=
  mkNode (config n) (so n) (feeds n) v (conns n) (connsl n) (wos n).
Definition set_conns (v : list ConnId) (n : Node) : Node :=
  mkNode (config n) (so n) (feeds n) (feedsl n) v (connsl n) (wos n).
Definition set_connsl (v : list ConnId) (n : Node) : Node :=
  mkNode (config n) (so n) (feeds n) (feedsl n) (conns n) v (wos n).
Definition set_wos (v : gmap SHA256 (gset ConnId)) (n : Node) : Node :=
  mkNode (config n) (so n) (feeds n) (feedsl n) (conns n) (connsl n) v.

(** [NewNode]: the feeds of the database, each without subscribers; no
    snapshot, no connection, nothing wanted. *)
Definition NewNode (sc : Config) (db : skyobject.Container) : Node :=
  mkNode sc db (gset_to_gmap ∅ (skyobject.feeds db)) [] [] [] ∅.

(** [addConn] *)
Definition addConn (c : ConnId) (s : Node) : Node :=
  set_connsl [] (set_conns (conns s ++ [c]) s).

(** The index of the first occurrence of [c], as the loop of [delConn] finds it. *)
Fixpoint index_of (c : ConnId) (l : list ConnId) : option nat :=
  match l with
  | [] => None
  | x :: l' => if decide (x = c) then Some 0%nat else S <$> index_of c l'
  end.

(** [delConn]: the snapshot is cleared; the first occurrence of [c] is
    overwritten with the last element and the slice is shortened by one. *)
Definition delConn (c : ConnId) (s : Node) : Node :=
  let s := set_connsl [] s in
  match index_of c (conns s) with
  | Some i =>
      match last (conns s) with
      | Some x => set_conns (take (length (conns s) - 1) (<[i:=x]> (conns s))) s
      | None => s
      end
  | None => s
  end.

(** [gotObject]: the connections to send the object to, and the entry of the
    key deleted. *)
Definition gotObject (key : SHA256) (s : Node) : Node * list ConnId :=
  (set_wos (delete key (wos s)) s, elements (default ∅ (wos s !! key))).

(** [wantObejct] *)
Definition wantObejct (key : SHA256) (c : ConnId) (s : Node) : Node :=
  match wos s !! key with
  | Some cs => set_wos (<[key := {[c]} ∪ cs]> (wos s)) s
  | None => set_wos (<[key := {[c]}]> (wos s)) s
  end.

(** [delConnFromWantedObjects] *)
Definition delConnFromWantedObjects (c : ConnId) (s : Node) : Node :=
  set_wos ((λ cs : gset ConnId, cs ∖ {[c]}) <$> wos s) s.

(** [Connections]: the snapshot when there is one; else the snapshot is made
    from the active list and the bare [return] returns the named result
    [cs], which nothing has assigned: [nil]. *)
Definition Connections (s : Node) : Node * list ConnId :=
  match connsl s with
  | [] => (set_connsl (conns s) s, [])
  | l => (s, l)
  end.

(** [Feeds]: the snapshot when it is not empty, else a fresh listing of the
    keys of [feeds] (in the order the map is ranged over), kept as the
    snapshot. *)
Definition Feeds (s : Node) : Node * list PubKey :=
  if negb (length (feedsl s) =? 0)%nat then (s, feedsl s)
  else
    let l := (map_to_list (feeds s)).*1 in
    (set_feedsl l s, l).

(** [HasFeed] *)
Definition HasFeed (pk : PubKey) (s : Node) : bool :=
  bool_decide (is_Some (feeds s !! pk)).

(** [addConnToFeed] *)
Definition addConnToFeed (c : ConnId) (pk : PubKey) (s : Node) : Node * bool :=
  match feeds s !! pk with
  | Some cs => (set_feeds (<[pk := {[c]} ∪ cs]> (feeds s)) s, true)
  | None => (s, false)
  end.

(** [delConnFromFeed] *)
Definition delConnFromFeed (c : ConnId) (pk : PubKey) (s : Node) : Node * bool :=
  match feeds s !! pk with
  | Some cs =>
      if decide (c ∈ cs)
      then (set_feeds (<[pk := cs ∖ {[c]}]> (feeds s)) s, true)
      else (s, false)
  | None => (s, false)
  end.

(** [AddFeed] *)
Definition AddFeed (pk : PubKey) (s : Node) : Node * option string :=
  match feeds s !! pk with
  | Some _ => (s, None)
  | None =>
      match skyobject.AddFeed (so s) pk with
      | (_, Some e) => (s, Some e)
      | (so', None) =>
          (set_feedsl [] (set_feeds (<[pk := ∅]> (feeds s)) (set_so so' s)), None)
      end
  end.

(** [delFeed] *)
Definition delFeed (pk : PubKey) (s : Node) : Node * bool :=
  match feeds s !! pk with
  | Some _ => (set_feedsl [] (set_feeds (delete pk (feeds s)) s), true)
  | None => (s, false)
  end.

(** Modelled from the spec: [hasConnFeed] of the Feed Registry ([c.n.fs] in
    [conn.go]), which is not among the sources: [c] is a member of
    [subscribers[f]]. *)
Definition hasConnFeed (c : ConnId) (pk : PubKey) (s : Node) : bool :=
  bool_decide (c ∈ default ∅ (feeds s !! pk)).

(** Modelled from the spec: [delConnection] of the Node, which is not among
    the sources: the close sequence removes the connection from the active
    set and from all feed subscription sets, and from the Want Registry. *)
Definition delConnection (c : ConnId) (s : Node) : Node :=
  let s := delConn c s in
  let s := set_feeds ((λ cs : gset ConnId, cs ∖ {[c]}) <$> feeds s) s in
  delConnFromWantedObjects c s.

(** The application callback [onSubscribeRemote(conn, feed)]: it returns the
    reason of a rejection, and it can subscribe the node to the feed. *)
Class Callbacks := {
  onSubscribeRemote : Node -> ConnId -> PubKey -> Node * option string
}.

(** ** The connection *)

(** A frame handed to the transport: the arguments of [encodeMsg]. *)
Abbreviation Frame := (Z * Z * Msg)%type.

(** [sync.Once]: not called, its one call running (here: [close] suspended
    with its [reason]), or returned. *)
Inductive Once : Type :=
| OnceNew
| OnceRunning (reason : option string)
| OnceDone.

(** A [Conn]. [reqs] maps the [seq] of a request in flight to its reply
    channel; [sendq] lists the frames put on the outbound queue, oldest first;
    [await] is the counter of the wait group; [closeq] is [true] once the
    channel is closed; [fcClosed] once the transport connection is closed.
    Two fields are not of the Go struct: [drawn] counts the calls of
    [nextSeq], [chans] the reply channels made. *)
Record Conn := mkConn {
  id : ConnId;
  seq : Z;
  reqs : gmap Z ChanId;
  sendq : list Frame;
  await : Z;
  closeo : Once;
  closeq : bool;
  fcClosed : bool;
  drawn : Z;
  chans : nat
}.

Definition set_seq (v : Z) (c : Conn) : Conn :=
  mkConn (id c) v (reqs c) (sendq c) (await c) (closeo c) (closeq c) (fcClosed c)
         (drawn c) (chans c).
Definition set_reqs (v : gmap Z ChanId) (c : Conn) : Conn :=
  mkConn (id c) (seq c) v (sendq c) (await c) (closeo c) (closeq c) (fcClosed c)
         (drawn c) (chans c).
Definition set_sendq (v : list Frame) (c : Conn) : Conn :=
  mkConn (id c) (seq c) (reqs c) v (await c) (closeo c) (closeq c) (fcClosed c)
         (drawn c) (chans c).
Definition set_await (v : Z) (c : Conn) : Conn :=
  mkConn (id c) (seq c) (reqs c) (sendq c) v (closeo c) (closeq c) (fcClosed c)
         (drawn c) (chans c).
Definition set_closeo (v : Once) (c : Conn) : Conn :=
  mkConn (id c) (seq c) (reqs c) (sendq c) (await c) v (closeq c) (fcClosed c)
         (drawn c) (chans c).
Definition set_closeq (v : bool) (c : Conn) : Conn :=
  mkConn (id c) (seq c) (reqs c) (sendq c) (await c) (closeo c) v (fcClosed c)
         (drawn c) (chans c).
Definition set_fcClosed (v : bool) (c : Conn) : Conn :=
  mkConn (id c) (seq c) (reqs c) (sendq c) (await c) (closeo c) (closeq c) v
         (drawn c) (chans c).
Definition set_drawn (v : Z) (c : Conn) : Conn :=
  mkConn (id c) (seq c) (reqs c) (sendq c) (await c) (closeo c) (closeq c)
         (fcClosed c) v (chans c).
Definition set_chans (v : nat) (c : Conn) : Conn :=
  mkConn (id c) (seq c) (reqs c) (sendq c) (await c) (closeo c) (closeq c)
         (fcClosed c) (drawn c) v.

(** The receive task: not started, in its loop, suspended in the send
    [rq <- m], suspended in [close] (called through [fatality]), or returned. *)
Inductive RecvState : Type :=
| RecvNotStarted
| RecvRunning
| RecvSending (rq : ChanId) (m : Msg)
| RecvClosing
| RecvExited.

(** What the callbacks and the Container were called with. *)
Inductive Event : Type :=
| EvOnDisconnect (reason : option string)
| EvReceivedRoot (sig val : bytes)
| EvFill (r : registry.Root).

(** A connection with its node ([c.n]), its tasks and the calls made so far:
    [recv] is the receive task, [tasks] lists the running [handleRqObject]
    tasks by the [seq] and key of their request, [events] is oldest first. *)
Record World := mkWorld {
  n : Node;
  c : Conn;
  recv : RecvState;
  tasks : list (Z * SHA256);
  events : list Event
}.

Definition set_n (v : Node) (w : World) : World :=
  mkWorld v (c w) (recv w) (tasks w) (events w).
Definition set_c (v : Conn) (w : World) : World :=
  mkWorld (n w) v (recv w) (tasks w) (events w).
Definition set_recv (v : RecvState) (w : World) : World :=
  mkWorld (n w) (c w) v (tasks w) (events w).
Definition set_tasks (v : list (Z * SHA256)) (w : World) : World :=
  mkWorld (n w) (c w) (recv w) v (events w).
Definition emit (e : Event) (w : World) : World :=
  mkWorld (n w) (c w) (recv w) (tasks w) (events w ++ [e]).

(** The errors of the node. [ErrClosed] and [ErrNotPublic] are named by
    [conn.go] and declared outside the sources; their texts are those of
    [ErrConnClsoed] and of the comment of [RemoteFeeds]. *)
Definition ErrTimeout : string := "timeout".
Definition ErrClosed : string := "connection closed".
Definition ErrNotPublic : string := "not a public server".

(** [newConnection]: a connection of the node with nothing sent and no
    request in flight. (It is put in the pending set of the node, which the
    sources do not show.) *)
Definition newConnection (nd : Node) (cid : ConnId) : World :=
  mkWorld nd (mkConn cid 0 ∅ [] 0 OnceNew false false 0 0) RecvNotStarted [] [].

(** [run]: two are added to the wait group and the receive task is started. *)
Definition run (w : World) : World :=
  set_recv RecvRunning (set_c (set_await (await (c w) + 2) (c w)) w).

(** [nextSeq]: the counter after the atomic increment. *)
Definition nextSeq (w : World) : Z * World :=
  let v := u32 (seq (c w) + 1) in
  (v, set_c (set_drawn (drawn (c w) + 1) (set_seq v (c w))) w).

(** [sendMsg], [sendRaw]: the frame is put on the outbound queue; once
    [closeq] is closed the send is abandoned. *)
Definition sendMsg (sq rseq : Z) (m : Msg) (w : World) : World :=
  if closeq (c w) then w
  else set_c (set_sendq (sendq (c w) ++ [(sq, rseq, m)]) (c w)) w.

(** [isResponse], [addRequest], [delRequest] *)
Definition isResponse (rseq : Z) (w : World) : option ChanId :=
  reqs (c w) !! rseq.

Definition addRequest (sq : Z) (rq : ChanId) (w : World) : World :=
  set_c (set_reqs (<[sq := rq]> (reqs (c w))) (c w)) w.

Definition delRequest (sq : Z) (w : World) : World :=
  set_c (set_reqs (delete sq (reqs (c w))) (c w)) w.

(** [sendErr], [sendOk] *)
Definition sendErr (rseq : Z) (e : string) (w : World) : World :=
  let '(sq, w) := nextSeq w in sendMsg sq rseq (Err e) w.

Definition sendOk (rseq : Z) (w : World) : World :=
  let '(sq, w) := nextSeq w in sendMsg sq rseq Ok w.

(** [sendRoot], [sendLastRoot] *)
Definition sendRoot (r : registry.Root) (w : World) : World :=
  let '(sq, w) := nextSeq w in
  sendMsg sq 0 (Root (registry.Pub r) (registry.Nonce r) (registry.Seq r)
                     (registry.Encoded r) (registry.Sig r)) w.

Definition sendLastRoot (pk : PubKey) (w : World) : World :=
  match skyobject.LastRoot (so (n w)) pk (skyobject.ActiveHead (so (n w)) pk) with
  | (Some r, _) => sendRoot r w
  | (None, _) => w
  end.

(** The text [%T] prints for a reply. *)
Definition typeName (reply : option Msg) : string :=
  match reply with
  | None => "<nil>"
  | Some (Sub _) => "*msg.Sub"
  | Some (Unsub _) => "*msg.Unsub"
  | Some RqList => "*msg.RqList"
  | Some (List _) => "*msg.List"
  | Some (Root _ _ _ _ _) => "*msg.Root"
  | Some (RqObject _) => "*msg.RqObject"
  | Some (Object _) => "*msg.Object"
  | Some (RqPreview _) => "*msg.RqPreview"
  | Some Ok => "*msg.Ok"
  | Some (Err _) => "*msg.Err"
  | Some Ping => "*msg.Ping"
  | Some Pong => "*msg.Pong"
  end.

(** ** Requests *)

(** The case of the [select] of [sendRequest] that fires. *)
Inductive Select : Type :=
| SelSend
| SelTimeout
| SelClosed.

(** [sendRequest] up to its [select]: a reply channel is made, a [seq] is
    drawn, the channel is registered under it and the frame [(seq, 0, m)] is
    sent. *)
Definition sendRequest_start (m : Msg) (w : World) : Z * World :=
  let rq := chans (c w) in
  let w := set_c (set_chans (S rq) (c w)) w in
  let '(sq, w) := nextSeq w in
  let w := addRequest sq rq w in
  (sq, sendMsg sq 0 m w).

(** What [sendRequest] returns from each case of its [select]. The first case
    is [rq <- reply], a send of the result variable [reply], which nothing
    has assigned: the reply returned is [nil]. *)
Definition sendRequest_result (sel : Select) : option Msg * option string :=
  match sel with
  | SelSend => (None, None)
  | SelTimeout => (None, Some ErrTimeout)
  | SelClosed => (None, Some ErrClosed)
  end.

(** [sendRequest] from its [select] on: the deferred [delRequest] runs. *)
Definition sendRequest_finish (sq : Z) (sel : Select) (w : World)
  : World * (option Msg * option string) :=
  (delRequest sq w, sendRequest_result sel).

(** A channel operation, and whether two of them on one unbuffered channel
    meet. *)
Inductive ChanOp : Type :=
| OpSend
| OpRecv.

Definition rendezvous (a b : ChanOp) : bool :=
  match a, b with
  | OpSend, OpRecv | OpRecv, OpSend => true
  | _, _ => false
  end.

(** The operation of [sendRequest] on the reply channel ([rq <- reply]) and
    that of the receive task ([rq <- m]). *)
Definition requester_op : ChanOp := OpSend.
Definition receiver_op : ChanOp := OpSend.

(** [RemoteFeeds] after [sendRequest]. *)
Definition RemoteFeeds_finish (r : option Msg * option string)
  : list PubKey * option string :=
  match r with
  | (_, Some e) => ([], Some e)
  | (reply, None) =>
      match reply with
      | Some (List l) => (l, None)
      | Some (Err x) => ([], Some x)
      | _ => ([], Some ("invalid response type " +:+ typeName reply))
      end
  end.

(** [Subscribe] before [sendRequest]: the feed is added to the node. *)
Definition Subscribe_start (feed : PubKey) (w : World) : World * option string :=
  match AddFeed feed (n w) with
  | (_, Some e) => (w, Some e)
  | (nd, None) => (set_n nd w, None)
  end.

(** [Subscribe] after [sendRequest]: on [Ok] the connection is added to the
    subscribers of the feed on this node and the last Root this node has of
    the feed is sent to the peer. *)
Definition Subscribe_finish (feed : PubKey) (r : option Msg * option string)
  (w : World) : World * option string :=
  match r with
  | (_, Some e) => (w, Some e)
  | (reply, None) =>
      let err :=
        match reply with
        | Some Ok => None
        | Some (Err x) => Some x
        | _ => Some ("invalid response type " +:+ typeName reply)
        end in
      match err with
      | Some e => (w, Some e)
      | None =>
          let w := set_n (addConnToFeed (id (c w)) feed (n w)).1 w in
          (sendLastRoot feed w, None)
      end
  end.

(** [Unsubscribe] *)
Definition Unsubscribe (feed : PubKey) (w : World) : World :=
  let w := set_n (delConnFromFeed (id (c w)) feed (n w)).1 w in
  let '(sq, w) := nextSeq w in
  sendMsg sq 0 (Unsub feed) w.

(** ** Unsolicited handlers *)

Section Handlers.
Context `{Crypto} `{Callbacks}.

(** [handleSub] *)
Definition handleSub (sq : Z) (feed : PubKey) (w : World) : World * option string :=
  if decide (feed = blankPubKey) then (w, Some "blank public key")
  else if hasConnFeed (id (c w)) feed (n w) then (sendOk sq w, None)
  else
    let '(nd, reject) := onSubscribeRemote (n w) (id (c w)) feed in
    let w := set_n nd w in
    match reject with
    | Some e => (sendErr sq e w, None)
    | None =>
        if negb (HasFeed feed (n w)) then
          (sendErr sq "do not share the feed" w, None)
        else
          let w := set_n (addConnToFeed (id (c w)) feed (n w)).1 w in
          (sendOk sq w, None)
    end.

(** [handleUnsub] *)
Definition handleUnsub (sq : Z) (feed : PubKey) (w : World) : World * option string :=
  if decide (feed = blankPubKey) then (w, Some "invalid request Unsub blank feed")
  else (set_n (delConnFromFeed (id (c w)) feed (n w)).1 w, None).

(** [handleRqList] *)
Definition handleRqList (sq : Z) (w : World) : World * option string :=
  if negb (Public (config (n w))) then (sendErr sq ErrNotPublic w, None)
  else
    let '(s, w) := nextSeq w in
    let '(nd, l) := Feeds (n w) in
    (sendMsg s sq (List l) (set_n nd w), None).

(** [handleRoot] from the call of [ReceivedRoot] on. *)
Definition handleRoot_receive (val sig : bytes) (w : World) : World * option string :=
  let '(so', r) := skyobject.ReceivedRoot (so (n w)) sig val in
  let w := emit (EvReceivedRoot sig val) (set_n (set_so so' (n w)) w) in
  match r with
  | fail _ => (w, None)
  | ok r => if registry.IsFull r then (w, None) else (emit (EvFill r) w, None)
  end.

(** [handleRoot] *)
Definition handleRoot (feed : PubKey) (nonce sq : Z) (val sig : bytes) (w : World)
  : World * option string :=
  match skyobject.LastRootSeq (so (n w)) feed nonce with
  | (_, Some data.ErrNoSuchFeed) => (w, None)
  | (_, Some data.ErrNoSuchHead) | (_, Some data.ErrNotFound) =>
      handleRoot_receive val sig w
  | (last, _) =>
      if sq <=? last then (w, None) else handleRoot_receive val sig w
  end.

(** [handleRqPreview] *)
Definition handleRqPreview (sq : Z) (feed : PubKey) (w : World) : World * option string :=
  match skyobject.LastRoot (so (n w)) feed (skyobject.ActiveHead (so (n w)) feed) with
  | (Some r, None) =>
      let '(s, w) := nextSeq w in
      (sendMsg s sq (Root (registry.Pub r) (registry.Nonce r) (registry.Seq r)
                          (registry.Encoded r) (registry.Sig r)) w, None)
  | (_, e) =>
      let '(s, w) := nextSeq w in
      (sendMsg s sq (Err (from_option data.Error_text "" e)) w, None)
  end.

(** [handle]: for an [RqObject] one is added to the wait group and the task
    [handleRqObject] is started. *)
Definition handle (sq : Z) (m : Msg) (w : World) : World * option string :=
  match m with
  | Sub feed => handleSub sq feed w
  | Unsub feed => handleUnsub sq feed w
  | RqList => handleRqList sq w
  | Root feed nonce rsq val sig => handleRoot feed nonce rsq val sig w
  | RqObject key =>
      let w := set_c (set_await (await (c w) + 1) (c w)) w in
      (set_tasks (tasks w ++ [(sq, key)]) w, None)
  | RqPreview feed => handleRqPreview sq feed w
  | Object _ | Err _ | Ok | List _ => (w, None)
  | Ping | Pong => (w, Some ("invalid messege type " +:+ typeName (Some m)))
  end.

End Handlers.

(** What ends the wait of [handleRqObject]: the object is there at once, it
    arrives later, the timer fires, or [closeq] is closed. *)
Inductive RqObjectEvent : Type :=
| ObjNow (val : bytes)
| ObjLater (val : bytes)
| ObjTimeout
| ObjClosed.

(** [handleRqObject]: the reply, and the deferred [Done]. *)
Definition handleRqObject (sq : Z) (key : SHA256) (ev : RqObjectEvent) (w : World) : World :=
  let w :=
    match ev with
    | ObjNow val | ObjLater val =>
        let '(s, w) := nextSeq w in sendMsg s sq (Object val) w
    | ObjTimeout =>
        let '(s, w) := nextSeq w in sendMsg s sq (Err "") w
    | ObjClosed => w
    end in
  set_c (set_await (await (c w) - 1) (c w)) w.

(** ** Termination *)

(** The function [close] passes to [closeo.Do]: the connection is deleted
    from the node, [closeq] is closed, the transport connection is closed
    and the wait group is waited for. With the counter at zero [Wait]
    returns, [onDisconenct] is called and the one call of [Do] has returned;
    otherwise the call stays suspended in [Wait]. *)
Definition close_body (reason : option string) (w : World) : World :=
  let w := set_n (delConnection (id (c w)) (n w)) w in
  let w := set_c (set_closeq true (c w)) w in
  let w := set_c (set_fcClosed true (c w)) w in
  if await (c w) =? 0 then
    set_c (set_closeo OnceDone (c w)) (emit (EvOnDisconnect reason) w)
  else set_c (set_closeo (OnceRunning reason) (c w)) w.

(** [close]: the world after the call, and whether the call has returned. A
    call of [Do] while the one call runs waits for it to return. *)
Definition close (reason : option string) (w : World) : World * bool :=
  match closeo (c w) with
  | OnceNew =>
      let w := close_body reason w in
      (w, match closeo (c w) with OnceDone => true | _ => false end)
  | OnceRunning _ => (w, false)
  | OnceDone => (w, true)
  end.

(** [Wait] returns in the suspended [close]: [onDisconenct] is called and
    [Do] returns, also in the receive task if it is suspended in [close]. *)
Definition wait_return (w : World) : option World :=
  match closeo (c w) with
  | OnceRunning reason =>
      if await (c w) =? 0 then
        let w := set_c (set_closeo OnceDone (c w)) (emit (EvOnDisconnect reason) w) in
        match recv w with
        | RecvClosing =>
            Some (set_recv RecvExited (set_c (set_await (await (c w) - 1) (c w)) w))
        | _ => Some w
        end
      else None
  | _ => None
  end.

(** ** The receive task *)

Section Receiving.
Context `{Crypto} `{Callbacks}.

(** [msg.Decode] of package [msg], which is not among the sources. *)
Variable msg_Decode : bytes -> result Msg.

(** The receive task returns: the deferred [Done]. *)
Definition receiving_return (w : World) : World :=
  set_recv RecvExited (set_c (set_await (await (c w) - 1) (c w)) w).

(** [fatality] in the receive task, and the [return] after it. *)
Definition receiving_fatality (e : string) (w : World) : World :=
  match close (Some e) w with
  | (w, true) => receiving_return w
  | (w, false) => set_recv RecvClosing w
  end.

(** One round of the loop of [receiving] on the frame [raw]. *)
Definition receive (raw : bytes) (w : World) : World :=
  if Z.of_nat (length raw) <? 9 then
    receiving_fatality "invalid messege received: samll size" w
  else
    let sq := Codec.Uint32 raw in
    let raw := drop 4 raw in
    let rseq := Codec.Uint32 raw in
    let raw := drop 4 raw in
    match msg_Decode raw with
    | fail e => receiving_fatality ("can't decode received messege: " +:+ e) w
    | ok m =>
        match isResponse rseq w with
        | Some rq => set_recv (RecvSending rq m) w
        | None =>
            match handle sq m w with
            | (w, Some e) => receiving_fatality ("error handling messege: " +:+ e) w
            | (w, None) => w
            end
        end
    end.

(** ** The tasks of a connection, step by step *)

Inductive Step : Type :=
| StRun
| StReceive (raw : bytes)
| StReceiveEOF
| StReceiveClosed
| StClose (reason : option string)
| StWaitReturn
| StRqObject (i : nat) (ev : RqObjectEvent)
| StSendRequest (m : Msg)
| StSelect (sq : Z) (sel : Select)
| StSendRoot (r : registry.Root)
| StShare (feed : PubKey)
| StUnsubscribe (feed : PubKey).

(** Whether the case [sel] of the [select] of the request under [sq] can
    fire: the send needs a task receiving from the reply channel, the timer
    a positive [ResponseTimeout], the last case [closeq] closed. *)
Definition select_ready (sq : Z) (sel : Select) (w : World) : bool :=
  match reqs (c w) !! sq with
  | None => false
  | Some rq =>
      match sel with
      | SelSend =>
          match recv w with
          | RecvSending rq' _ =>
              bool_decide (rq' = rq) && rendezvous requester_op receiver_op
          | _ => false
          end
      | SelTimeout => 0 <? ResponseTimeout (config (n w))
      | SelClosed => closeq (c w)
      end
  end.

(** One step of one task; [None] when the step cannot be taken. *)
Definition step (st : Step) (w : World) : option World :=
  match st with
  | StRun =>
      match recv w with RecvNotStarted => Some (run w) | _ => None end
  | StReceive raw =>
      match recv w with RecvRunning => Some (receive raw w) | _ => None end
  | StReceiveEOF =>
      match recv w with RecvRunning => Some (receiving_return w) | _ => None end
  | StReceiveClosed =>
      match recv w with
      | RecvRunning => if closeq (c w) then Some (receiving_return w) else None
      | _ => None
      end
  | StClose reason => Some (close reason w).1
  | StWaitReturn => wait_return w
  | StRqObject i ev =>
      match tasks w !! i with
      | Some (sq, key) =>
          let ready :=
            match ev with
            | ObjNow _ | ObjLater _ => true
            | ObjTimeout => 0 <? ResponseTimeout (config (n w))
            | ObjClosed => closeq (c w)
            end in
          if ready then Some (handleRqObject sq key ev (set_tasks (delete i (tasks w)) w))
          else None
      | None => None
      end
  | StSendRequest m => Some (sendRequest_start m w).2
  | StSelect sq sel =>
      if select_ready sq sel w then
        let w := (sendRequest_finish sq sel w).1 in
        match sel, recv w with
        | SelSend, RecvSending _ _ => Some (set_recv RecvRunning w)
        | _, _ => Some w
        end
      else None
  | StSendRoot r => Some (sendRoot r w)
  | StShare feed => Some (Subscribe_start feed w).1
  | StUnsubscribe feed => Some (Unsubscribe feed w)
  end.

(** A run: the steps taken one after the other. *)
Fixpoint steps (sts : list Step) (w : World) : option World :=
  match sts with
  | [] => Some w
  | st :: sts' =>
      match step st w with
      | Some w' => steps sts' w'
      | None => None
      end
  end.

End Receiving.

(** ** The Getter of a connection *)

Module cipher.

(** [cipher.SumSHA256] is SHA-256 (FIPS 180-4) of package [cipher], outside
    the sources; it is written out here so that hashes can be computed. *)
(** The round constants and the initial hash value, in decimal. *)
Definition K : list Z :=
  [1116352408; 1899447441; 3049323471; 3921009573; 961987163; 1508970993;
   2453635748; 2870763221; 3624381080; 310598401; 607225278; 1426881987;
   1925078388; 2162078206; 2614888103; 3248222580; 3835390401; 4022224774;
   264347078; 604807628; 770255983; 1249150122; 1555081692; 1996064986;
   2554220882; 2821834349; 2952996808; 3210313671; 3336571891; 3584528711;
   113926993; 338241895; 666307205; 773529912; 1294757372; 1396182291;
   1695183700; 1986661051; 2177026350; 2456956037; 2730485921; 2820302411;
   3259730800; 3345764771; 3516065817; 3600352804; 4094571909; 275423344;
   430227734; 506948616; 659060556; 883997877; 958139571; 1322822218;
   1537002063; 1747873779; 1955562222; 2024104815; 2227730452; 2361852424;
   2428436474; 2756734187; 3204031479; 3329325298].

Definition H0 : list Z :=
  [1779033703; 3144134277; 1013904242; 2773480762; 1359893119; 2600822924;
   528734635; 1541459225].

Definition rotr (x k : Z) : Z :=
  Z.lor (Z.shiftr x k) (u32 (Z.shiftl x (32 - k))).

Definition be32 (b : bytes) : Z :=
  Z.lor (Z.lor (Z.lor (Z.shiftl (nth 0 b 0) 24) (Z.shiftl (nth 1 b 0) 16))
               (Z.shiftl (nth 2 b 0) 8))
        (nth 3 b 0).

Definition be_bytes (k : nat) (v : Z) : bytes :=
  (λ i, Z.land (Z.shiftr v (8 * Z.of_nat i)) 255) <$> reverse (List.seq 0 k).

(** The padded message: the bit [1], zeros up to 56 modulo 64, the length in
    bits as 8 bytes. *)
Definition pad (msg : bytes) : bytes :=
  let l := Z.of_nat (length msg) in
  msg ++ [128] ++ replicate (Z.to_nat ((55 - l) mod 64)) 0 ++ be_bytes 8 (8 * l).

Fixpoint words (k : nat) (b : bytes) : list Z :=
  match k with
  | O => []
  | S k' => be32 b :: words k' (drop 4 b)
  end.

(** The message schedule: [k] more words after the sixteen of the block;
    [ws] holds the schedule newest first. *)
Fixpoint schedule (k : nat) (ws : list Z) : list Z :=
  match k with
  | O => ws
  | S k' =>
      let w2 := nth 1 ws 0 in
      let w7 := nth 6 ws 0 in
      let w15 := nth 14 ws 0 in
      let w16 := nth 15 ws 0 in
      let s0 := Z.lxor (Z.lxor (rotr w15 7) (rotr w15 18)) (Z.shiftr w15 3) in
      let s1 := Z.lxor (Z.lxor (rotr w2 17) (rotr w2 19)) (Z.shiftr w2 10) in
      schedule k' (u32 (w16 + s0 + w7 + s1) :: ws)
  end.

Definition round (st : list Z) (kw : Z * Z) : list Z :=
  match st with
  | [a; b; c; d; e; f; g; h] =>
      let S1 := Z.lxor (Z.lxor (rotr e 6) (rotr e 11)) (rotr e 25) in
      let ch := Z.lxor (Z.land e f) (Z.land (Z.lxor e 0xffffffff) g) in
      let t1 := u32 (h + S1 + ch + kw.1 + kw.2) in
      let S0 := Z.lxor (Z.lxor (rotr a 2) (rotr a 13)) (rotr a 22) in
      let maj := Z.lxor (Z.lxor (Z.land a b) (Z.land a c)) (Z.land b c) in
      let t2 := u32 (S0 + maj) in
      [u32 (t1 + t2); a; b; c; u32 (d + t1); e; f; g]
  | _ => st
  end.

Definition compress (h : list Z) (block : bytes) : list Z :=
  let ws := reverse (schedule 48 (reverse (words 16 block))) in
  let st := foldl round h (zip K ws) in
  zip_with (λ x y, u32 (x + y)) h st.

Fixpoint blocks (k : nat) (h : list Z) (b : bytes) : list Z :=
  match k with
  | O => h
  | S k' => blocks k' (compress h (take 64 b)) (drop 64 b)
  end.

Definition SumSHA256 (data : bytes) : SHA256 :=
  let p := pad data in
  mjoin (be_bytes 4 <$> blocks (length p / 64) H0 p).

End cipher.

(** [cget.Get] after [sendRequest]: the value and the error returned; the
    connection is not written to. *)
Definition Get_finish (key : SHA256) (r : option Msg * option string) (w : World)
  : World * (bytes * option string) :=
  match r with
  | (_, Some e) => (w, ([], Some e))
  | (reply, None) =>
      match reply with
      | Some (Object val) =>
          if decide (cipher.SumSHA256 val ≠ key)
          then (w, ([], Some "wrong object received (different hash)"))
          else (w, (val, None))
      | Some (Err x) => (w, ([], Some ("error: " +:+ x)))
      | _ => (w, ([], Some ("invalid msg type received: " +:+ typeName reply)))
      end
  end.

(** [cget.Get] up to the [select] of [sendRequest]. *)
Definition Get_start (key : SHA256) (w : World) : Z * World :=
  sendRequest_start (RqObject key) w.

(** The kinds [handle] ignores as delayed responses. *)
Definition delayed (m : Msg) : bool :=
  match m with
  | Object _ | Err _ | Ok | List _ => true
  | _ => false
  end.

(** The snapshot of [Feeds] is in step with [feeds]: it is empty (to be
    rebuilt on the next call), or it lists the shared feeds, each once. *)
Definition feedsl_ok (s : Node) : Prop :=
  feedsl s = [] \/
  (NoDup (feedsl s) /\ forall f, f ∈ feedsl s <-> is_Some (feeds s !! f)).

(** The [seq]s of the Roots stored for a head, in the order they were
    stored. *)
Definition seqsOf (pk : PubKey) (nonce : Z) (C : skyobject.Container) : list Z :=
  registry.Seq <$> skyobject.rootsOf pk nonce C.




(** The messages [ms] handled one after the other. *)
Fixpoint handleAll `{Crypto} `{Callbacks} (ms : list Msg) (w : World) : World :=
  match ms with
  | [] => w
  | m :: ms' => handleAll ms' (handle 0 m w).1
  end.

(** The reasons [onDisconenct] was called with, oldest first. *)
Definition disconnects (w : World) : list (option string) :=
  omap (fun e => match e with EvOnDisconnect r => Some r | _ => None end) (events w).

(** Whether the receive task has yet to call [Done]. *)
Definition alive (r : RecvState) : Z :=
  match r with
  | RecvRunning | RecvSending _ _ | RecvClosing => 1
  | RecvNotStarted | RecvExited => 0
  end.

(** The wait group of a started connection: one for each task that has yet to
    call [Done], and one more. *)
Definition await_ok (w : World) : Prop :=
  recv w <> RecvNotStarted
  /\ closeo (c w) <> OnceDone
  /\ await (c w) = 1 + alive (recv w) + Z.of_nat (length (tasks w)).

(** The counter of a connection is the number of [seq]s drawn, modulo [2^32],
    and every pending request is registered under a [seq] drawn so far. *)
Definition seq_ok (cn : Conn) : Prop :=
  0 <= drawn cn
  /\ seq cn = u32 (drawn cn)
  /\ forall k rq, reqs cn !! k = Some rq -> exists j, 1 <= j <= drawn cn /\ k = u32 j.

(** What a handler or a send may do to the connection, as far as the two
    invariants above go: [w'] comes after [w]. *)
Record preserved (w w' : World) : Prop := mkPreserved {
  pres_recv : recv w' = recv w;
  pres_closeo : closeo (c w') = closeo (c w);
  pres_closeq : closeq (c w') = closeq (c w);
  pres_reqs : reqs (c w') = reqs (c w);
  pres_disc : disconnects w' = disconnects w;
  pres_await :
    await (c w') - Z.of_nat (length (tasks w')) = await (c w) - Z.of_nat (length (tasks w));
  pres_seq : seq_ok (c w) -> seq_ok (c w')
}.

(** Projections and updates of the records, reduced away. *)
Ltac wsimpl :=
  cbn [n c recv tasks events id seq reqs sendq await closeo closeq fcClosed drawn
       chans set_n set_c set_recv set_tasks emit set_seq set_reqs set_sendq
       set_await set_closeo set_closeq set_fcClosed set_drawn set_chans fst snd] in *.

(** ** Sample collaborators, for the examples *)

Module Sample.

(** A payload codec on short payloads: a kind byte, then the fields; a feed
    is named by one byte, repeated. *)
Definition feed (b : Z) : PubKey := replicate 33 b.

Definition Decode (raw : bytes) : result Msg :=
  match raw with
  | 0 :: f :: _ => ok (Sub (feed f))
  | 2 :: _ => ok RqList
  | 4 :: f :: nonce :: sq :: val => ok (Root (feed f) nonce sq val [])
  | 5 :: key => ok (RqObject key)
  | 6 :: val => ok (Object val)
  | 8 :: _ => ok Ok
  | _ => fail "unknown message type"
  end.

(** A Root body of three bytes: feed, nonce, seq; every signature verifies. *)
#[global] Instance crypto : Crypto := {|
  DecodeRoot val :=
    match val with
    | [f; nonce; sq] => ok (registry.mkRoot (feed f) nonce sq [] false val)
    | _ => fail "can't decode Root"
    end;
  VerifySignature _ _ _ := true
|}.

(** A callback that accepts every subscription and leaves the node alone. *)
#[global] Instance accept : Callbacks := {|
  onSubscribeRemote nd _ _ := (nd, None)
|}.

(** A node that shares the feed [feed 1], with the Root of seq 5 of its head 0
    stored, and a running connection of it. *)
Definition root5 : registry.Root := registry.mkRoot (feed 1) 0 5 [] false [1; 0; 5].

Definition container : skyobject.Container :=
  skyobject.mkContainer {[ feed 1 ]} {[ (feed 1, 0) ]} [root5].

Definition node : Node := NewNode (mkConfig true 100) container.

Definition world : World := run (newConnection node 1%positive).

End Sample.

(** ** More of the node *)

(** [connString] *)
Definition connString (isIncoming isTCP : bool) (addr : string) : string :=
  let s := if isIncoming then "-> " else "<- " in
  let s := s +:+ (if isTCP then "tcp://" else "udp://") in
  s +:+ addr.

(** [broadcastRoot]: the connections [SendRoot] is called on, in the order the
    subscribers of the feed of the Root are ranged over; [e] is the connection
    left out, or [None] for [nil]. *)
Definition broadcastRoot (r : registry.Root) (e : option ConnId) (s : Node) : list ConnId :=
  filter (fun cn => Some cn <> e) (elements (default ∅ (feeds s !! registry.Pub r))).

(** [Publish]: the copy made of the Root has its [Pub]; it is broadcast with
    no connection left out. *)
Definition Publish (r : registry.Root) (s : Node) : list ConnId :=
  broadcastRoot r None s.

(** [maxDuration], and the test in the loop of [pingsLoop] at time [now] for
    a connection last read from at [lastRead] and last written to at
    [lastWrite]: whether the [continue] is passed. *)
Definition maxDuration (a b : Z) : Z := if b <? a then a else b.

Definition pingsLoop_pings (interval now lastRead lastWrite : Z) : bool :=
  negb (maxDuration (now - lastRead) (now - lastWrite) <? interval).

(** One tick of [pingsLoop] at time [now]: the range over what
    [Connections] returns, and the connections [SendPing] is called on, in
    that order. [LastRead] and [LastWrite] are those of the transport
    connections. *)
Definition pingsLoop_tick (interval now : Z) (LastRead LastWrite : ConnId -> Z) (s : Node)
  : Node * list ConnId :=
  let '(s, cs) := Connections s in
  (s, filter (fun cn => pingsLoop_pings interval now (LastRead cn) (LastWrite cn) = true) cs).

(** The operations of the node on its registries, and a run of them. *)
Inductive NodeOp : Type :=
| OpAddConn (cn : ConnId)
| OpDelConn (cn : ConnId)
| OpConnections
| OpFeeds
| OpAddFeed (pk : PubKey)
| OpDelFeed (pk : PubKey)
| OpAddConnToFeed (cn : ConnId) (pk : PubKey)
| OpDelConnFromFeed (cn : ConnId) (pk : PubKey)
| OpWantObejct (key : SHA256) (cn : ConnId)
| OpGotObject (key : SHA256)
| OpDelConnFromWantedObjects (cn : ConnId).

Definition node_op (op : NodeOp) (s : Node) : Node :=
  match op with
  | OpAddConn cn => addConn cn s
  | OpDelConn cn => delConn cn s
  | OpConnections => (Connections s).1
  | OpFeeds => (Feeds s).1
  | OpAddFeed pk => (AddFeed pk s).1
  | OpDelFeed pk => (delFeed pk s).1
  | OpAddConnToFeed cn pk => (addConnToFeed cn pk s).1
  | OpDelConnFromFeed cn pk => (delConnFromFeed cn pk s).1
  | OpWantObejct key cn => wantObejct key cn s
  | OpGotObject key => (gotObject key s).1
  | OpDelConnFromWantedObjects cn => delConnFromWantedObjects cn s
  end.

Definition node_ops (ops : list NodeOp) (s : Node) : Node :=
  foldl (fun s op => node_op op s) s ops.

(** The outbound queue as bytes: [sendMsg] hands [sendRaw] the frame that
    [encodeMsg] builds from its arguments. *)
Definition sendq_raw (msg_Encode : Msg -> bytes) (cn : Conn) : list bytes :=
  (fun f : Frame => Codec.encodeMsg msg_Encode f.1.1 f.1.2 f.2) <$> sendq cn.

(** What one handler does to the counter and to the calls of [sendMsg]
    recorded in [sendq]: nothing; or a [seq] is drawn and the send abandoned
    (the connection is closed); or a [seq] is drawn and [sendMsg] is called
    with it and an [rseq] that [P] holds of. *)
Inductive sent_step (P : Z -> Prop) (cn cn' : Conn) : Prop :=
| sent_none :
    seq cn' = seq cn -> drawn cn' = drawn cn -> sendq cn' = sendq cn ->
    sent_step P cn cn'
| sent_drawn :
    seq cn' = u32 (seq cn + 1) -> drawn cn' = drawn cn + 1 -> sendq cn' = sendq cn ->
    sent_step P cn cn'
| sent_one (rseq : Z) (m : Msg) :
    P rseq ->
    seq cn' = u32 (seq cn + 1) -> drawn cn' = drawn cn + 1 ->
    sendq cn' = sendq cn ++ [(u32 (seq cn + 1), rseq, m)] ->
    sent_step P cn cn'.

(** ** Package [bbs] *)

Module bbs.

(** The loop of [updateBoard] over [bbs.Boards] (a [schema.HArray], the
    hashes of its references), appending to [boards]. *)
Fixpoint updateBoard_loop (key : SHA256) (Boards boards : list SHA256) : list SHA256 :=
  match Boards with
  | [] => boards
  | b :: rest =>
      updateBoard_loop key rest (if decide (b <> key) then boards ++ [b] else boards)
  end.

(** [updateBoard]: the new value of [bbs.Boards]; [newBoardKey] is the key
    [Store.Save] gives the board. *)
Definition updateBoard (newBoardKey key : SHA256) (Boards : list SHA256) : list SHA256 :=
  updateBoard_loop key Boards [newBoardKey].

End bbs.

(** A payload encoder for the samples, the inverse of [Sample.Decode] on the
    kinds it writes in full. *)
Definition Sample_Encode (m : Msg) : bytes :=
  match m with
  | RqList => [2]
  | RqObject key => 5 :: key
  | Object val => 6 :: val
  | Ok => [8]
  | _ => [255]
  end.

(** * Properties *)

(** ** Properties of the codec *)

Module CodecFacts.
Import Codec.

Lemma land255_testbit v n :
  0 <= n -> Z.testbit (Z.land v 255) n = Z.testbit v n && (n <? 8).
Proof.
  intros Hn. change 255 with (Z.ones 8).
  rewrite Z.land_spec, Z.testbit_ones_nonneg by lia.
  destruct (Z.testbit v n); simpl; lia.
Qed.

Lemma byte_at_testbit v k n :
  0 <= k -> 0 <= n ->
  Z.testbit (Z.shiftl (Z.land (Z.shiftr v k) 255) k) n
  = Z.testbit v n && (k <=? n) && (n <? k + 8).
Proof.
  intros Hk Hn.
  destruct (Z.leb_spec k n) as [Hle|Hlt].
  - rewrite Z.shiftl_spec by lia.
    rewrite land255_testbit by lia.
    rewrite Z.shiftr_spec by lia.
    replace (n - k + k) with n by lia.
    rewrite andb_true_r. f_equal. lia.
  - rewrite Z.shiftl_spec_low by lia.
    rewrite andb_false_r. reflexivity.
Qed.

(** Reading back what [PutUint32] wrote gives the value modulo [2^32]. *)
Lemma Uint32_le32 v rest : Uint32 (le32 v ++ rest) = u32 v.
Proof.
  unfold Uint32, le32, u32. cbn [app nth].
  apply Z.bits_inj'. intros n Hn.
  rewrite !Z.lor_spec.
  rewrite <- (Z.shiftl_0_r (Z.land v 255)) at 1.
  rewrite <- (Z.shiftr_0_r v) at 1.
  rewrite !byte_at_testbit by lia.
  rewrite <- Z.land_ones, Z.land_spec, Z.testbit_ones_nonneg by lia.
  destruct (Z.testbit v n); simpl; lia.
Qed.

Lemma Uint32_PutUint32 b v : Uint32 (PutUint32 b v) = u32 v.
Proof. apply Uint32_le32. Qed.

Section WithPayloadCodec.

Variable msg_Encode : Msg -> bytes.
Variable msg_Decode : bytes -> result Msg.

(** The frame [encodeMsg] builds: [rseq] in the first word, zero in the
    second, then the payload. The second [PutUint32] writes over the first. *)
Lemma encodeMsg_frame seq rseq m :
  encodeMsg msg_Encode seq rseq m = le32 rseq ++ [0; 0; 0; 0] ++ msg_Encode m.
Proof. reflexivity. Qed.

(** What [decodeRaw] reads from a frame of [encodeMsg], for a payload codec
    that round-trips and never encodes to the empty payload: the [rseq] given
    in place of [seq], and zero in place of [rseq]. *)
Lemma decodeRaw_encodeMsg seq rseq m :
  msg_Decode (msg_Encode m) = ok m ->
  msg_Encode m <> [] ->
  decodeRaw msg_Decode (encodeMsg msg_Encode seq rseq m) = ok (u32 rseq, 0, m).
Proof.
  intros Hrt Hne. rewrite encodeMsg_frame. unfold decodeRaw.
  destruct (msg_Encode m) as [|b em] eqn:Hem; [done|].
  rewrite length_app. cbn [length le32 app].
  destruct (Z.ltb_spec (Z.of_nat (4 + S (S (S (S (S (length em))))))) 9); [lia|].
  change (drop 4 (?a :: ?b :: ?c :: ?d :: ?l)) with l.
  cbn [drop]. rewrite Hrt.
  f_equal. f_equal. f_equal.
  apply (Uint32_le32 rseq (0 :: 0 :: 0 :: 0 :: b :: em)).
Qed.

(** C1 (the code departs from the round-trip law). Decoding the frame that
    [encodeMsg] builds for [seq = 1], [rseq = 0] and any message [m] does not
    give back [(1, 0, m)], whatever the payload codec: [encodeMsg] writes
    [rseq] over the word of [seq], so [decodeRaw] reads [seq = 0]. *)
Theorem decodeRaw_encodeMsg_loses_seq m :
  decodeRaw msg_Decode (encodeMsg msg_Encode 1 0 m) <> ok (1, 0, m).
Proof.
  rewrite encodeMsg_frame. unfold decodeRaw.
  destruct (_ <? 9); [done|].
  rewrite (Uint32_le32 0). destruct (msg_Decode _); [|done].
  intros [=].
Qed.

End WithPayloadCodec.

End CodecFacts.

(** ** The receive task and the replies *)

Module ReceiveFacts.

Section WithCollaborators.
Context `{Crypto} `{Callbacks}.
Variable msg_Decode : bytes -> result Msg.

(** [sendRequest] returns no reply, whichever case of its [select] fires. *)
Lemma sendRequest_reply_nil sq sel w :
  (sendRequest_finish sq sel w).2.1 = None.
Proof. by destruct sel. Qed.

(** The send case of the [select] of [sendRequest] never fires: the receive
    task sends on the reply channel too, and no task receives from it. *)
Lemma select_send_never_ready sq w : select_ready sq SelSend w = false.
Proof.
  unfold select_ready. destruct (reqs (c w) !! sq); [|done].
  destruct (recv w); try done. by rewrite andb_false_r.
Qed.

(** [handleRoot] returns [nil] on every path. *)
Lemma handleRoot_nil feed nonce sq val sig w :
  (handleRoot feed nonce sq val sig w).2 = None.
Proof.
  assert (Hr : (handleRoot_receive val sig w).2 = None).
  { unfold handleRoot_receive. destruct (skyobject.ReceivedRoot _ _ _) as [so' [r|e]];
      [destruct (registry.IsFull r)|]; done. }
  unfold handleRoot.
  destruct (skyobject.LastRootSeq _ _ _) as [last [[]|]];
    try destruct (sq <=? last); done.
Qed.

(** C2 (amended). An incoming frame whose [rseq] is registered in the table
    of pending requests is handed by the receive task to the sink registered
    under that [rseq] and is not dispatched to a handler (node, connection
    and calls made stay as they were). An incoming frame whose [rseq] matches
    no pending request is dispatched by kind with [handle], under its [seq]:
    it is discarded without side effects when its kind is Object, Ok, Err or
    List; a Root is handled by [handleRoot] like an unsolicited one, and so
    are the request kinds by their handlers, an error of the handler being
    fatal. *)
Theorem receive_matches_by_rseq raw w m :
  9 <= Z.of_nat (length raw) ->
  msg_Decode (drop 4 (drop 4 raw)) = ok m ->
  receive msg_Decode raw w =
    match reqs (c w) !! Codec.Uint32 (drop 4 raw) with
    | Some rq => set_recv (RecvSending rq m) w
    | None =>
        match m with
        | Object _ | Ok | Err _ | List _ => w
        | Root feed nonce sq val sig => (handleRoot feed nonce sq val sig w).1
        | _ =>
            match handle (Codec.Uint32 raw) m w with
            | (w', Some e) => receiving_fatality ("error handling messege: " +:+ e) w'
            | (w', None) => w'
            end
        end
    end.
Proof.
  intros Hlen Hdec. unfold receive, isResponse.
  destruct (Z.ltb_spec (Z.of_nat (length raw)) 9); [lia|].
  rewrite Hdec. destruct (reqs (c w) !! _); [done|].
  destruct m; try done. cbn [handle].
  pose proof (handleRoot_nil Feed Nonce Seq Value Sig w) as Hr.
  by destruct (handleRoot Feed Nonce Seq Value Sig w) as [w' [e|]].
Qed.

End WithCollaborators.

(** A connection with the request [RqList] in flight under [seq = 1]: the
    frame [Ok] with [rseq = 1] goes to its sink. On the connection of the
    samples, with no request pending, a [Sub] of the feed [feed 1] with
    [rseq = 7] goes to [handleSub]. *)
Lemma receive_matches_by_rseq_witness :
  let w := (sendRequest_start RqList Sample.world).2 in
  let sub := Sub (Sample.feed 1) in
  (reqs (c w) !! 1 = Some 0%nat
   /\ receive Sample.Decode [9; 0; 0; 0; 1; 0; 0; 0; 8] w =
      match reqs (c w) !! Codec.Uint32 (drop 4 [9; 0; 0; 0; 1; 0; 0; 0; 8]) with
      | Some rq => set_recv (RecvSending rq Ok) w
      | None => w
      end)
  /\ (reqs (c Sample.world) !! 7 = None
      /\ receive Sample.Decode [9; 0; 0; 0; 7; 0; 0; 0; 0; 1] Sample.world =
         match reqs (c Sample.world) !! Codec.Uint32 (drop 4 [9; 0; 0; 0; 7; 0; 0; 0; 0; 1]) with
         | Some rq => set_recv (RecvSending rq sub) Sample.world
         | None =>
             match handle (Codec.Uint32 [9; 0; 0; 0; 7; 0; 0; 0; 0; 1]) sub Sample.world with
             | (w', Some e) => receiving_fatality ("error handling messege: " +:+ e) w'
             | (w', None) => w'
             end
         end).
Proof.
  split; (split; [reflexivity|]).
  - apply (receive_matches_by_rseq Sample.Decode [9; 0; 0; 0; 1; 0; 0; 0; 8]
             (sendRequest_start RqList Sample.world).2 Ok).
    + vm_compute. discriminate.
    + reflexivity.
  - apply (receive_matches_by_rseq Sample.Decode [9; 0; 0; 0; 7; 0; 0; 0; 0; 1]
             Sample.world (Sub (Sample.feed 1))).
    + vm_compute. discriminate.
    + reflexivity.
Defined.

(** C2 (counterexample). A Root that arrives as a late reply, with
    [rseq = 7] and no request pending, is not discarded: [handleRoot] has it
    verified and stored, and hands it to the filler. *)
Lemma late_Root_reply_is_handled :
  let raw := [9; 0; 0; 0; 7; 0; 0; 0; 4; 1; 0; 6; 1; 0; 6] in
  let r6 := registry.mkRoot (Sample.feed 1) 0 6 [] false [1; 0; 6] in
  Codec.decodeRaw Sample.Decode raw = ok (9, 7, Root (Sample.feed 1) 0 6 [1; 0; 6] [])
  /\ isResponse 7 Sample.world = None
  /\ events Sample.world = []
  /\ events (receive Sample.Decode raw Sample.world) = [EvReceivedRoot [] [1; 0; 6]; EvFill r6]
  /\ skyobject.roots (so (n Sample.world)) = [Sample.root5]
  /\ skyobject.roots (so (n (receive Sample.Decode raw Sample.world))) = [Sample.root5; r6].
Proof. vm_compute. repeat split. Qed.

End ReceiveFacts.

(** ** The Getter *)

Module GetFacts.

(** SHA-256 of the empty message and of ["abc"], as FIPS 180-4 gives them. *)
Example SumSHA256_empty :
  cipher.SumSHA256 [] =
  [0xe3; 0xb0; 0xc4; 0x42; 0x98; 0xfc; 0x1c; 0x14; 0x9a; 0xfb; 0xf4; 0xc8;
   0x99; 0x6f; 0xb9; 0x24; 0x27; 0xae; 0x41; 0xe4; 0x64; 0x9b; 0x93; 0x4c;
   0xa4; 0x95; 0x99; 0x1b; 0x78; 0x52; 0xb8; 0x55].
Proof. vm_compute. reflexivity. Qed.

Example SumSHA256_abc :
  cipher.SumSHA256 [97; 98; 99] =
  [0xba; 0x78; 0x16; 0xbf; 0x8f; 0x01; 0xcf; 0xea; 0x41; 0x41; 0x40; 0xde;
   0x5d; 0xae; 0x22; 0x23; 0xb0; 0x03; 0x61; 0xa3; 0x96; 0x17; 0x7a; 0x9c;
   0xb4; 0x10; 0xff; 0x61; 0xf2; 0x00; 0x15; 0xad].
Proof. vm_compute. reflexivity. Qed.

Section WithCollaborators.
Context `{Crypto} `{Callbacks}.
Variable msg_Decode : bytes -> result Msg.

(** What [Get] makes of the result of [sendRequest], whatever it is: a value
    is returned only for an Object reply whose SHA-256 is the key, and the
    connection is not written to. *)
Lemma Get_finish_value key r w v :
  (Get_finish key r w).1 = w
  /\ ((Get_finish key r w).2 = (v, None) ->
      r = (Some (Object v), None) /\ cipher.SumSHA256 v = key).
Proof.
  unfold Get_finish. destruct r as [reply [e|]]; [done|].
  destruct reply as [[]|]; try done.
  destruct (decide (cipher.SumSHA256 Value ≠ key)) as [Hne|Heq]; [done|].
  apply dec_stable in Heq. split; [done|]. by intros [= ->].
Qed.

(** C3 (amended). For every Object reply received for an outstanding
    [RqObject key], [Get] accepts the value only if its SHA-256 is [key]. On
    a mismatch the reply is rejected, [Get] returning an error and no value,
    and the connection is not terminated: the receive task hands the reply to
    the sink of the request, and when [Get] returns, whichever case of the
    [select] of [sendRequest] was taken, [closeq], the transport, [closeo]
    and the calls made are as they were before [Get] was called. *)
Theorem Get_rejects_without_closing key val raw sel w :
  9 <= Z.of_nat (length raw) ->
  Codec.Uint32 (drop 4 raw) = (Get_start key w).1 ->
  msg_Decode (drop 4 (drop 4 raw)) = ok (Object val) ->
  cipher.SumSHA256 val <> key ->
  let w2 := receive msg_Decode raw (Get_start key w).2 in
  let r := sendRequest_finish (Get_start key w).1 sel w2 in
  let g := Get_finish key r.2 r.1 in
  (forall r' w' v,
     (Get_finish key r' w').2 = (v, None) ->
     r' = (Some (Object v), None) /\ cipher.SumSHA256 v = key)
  /\ recv w2 = RecvSending (chans (c w)) (Object val)
  /\ g.2.1 = [] /\ is_Some g.2.2
  /\ closeq (c g.1) = closeq (c w)
  /\ fcClosed (c g.1) = fcClosed (c w)
  /\ closeo (c g.1) = closeo (c w)
  /\ events g.1 = events w.
Proof.
  intros Hlen Hsq Hdec Hne. cbv zeta.
  split; [intros r' w' v; apply Get_finish_value|].
  assert (Hw2 : receive msg_Decode raw (Get_start key w).2
                = set_recv (RecvSending (chans (c w)) (Object val)) (Get_start key w).2).
  { unfold receive, isResponse.
    destruct (Z.ltb_spec (Z.of_nat (length raw)) 9); [lia|].
    rewrite Hdec, Hsq. unfold Get_start, sendRequest_start, nextSeq, addRequest, sendMsg.
    wsimpl. destruct (closeq (c w)); wsimpl; by rewrite lookup_insert_eq. }
  rewrite Hw2. split; [done|].
  assert (Hg : forall w', (Get_finish key (sendRequest_result sel) w').2.1 = []
                          /\ is_Some (Get_finish key (sendRequest_result sel) w').2.2).
  { intros w'. destruct sel; split; simpl; eauto. }
  set (w2 := set_recv (RecvSending (chans (c w)) (Object val)) (Get_start key w).2).
  destruct (Hg (sendRequest_finish (Get_start key w).1 sel w2).1) as [Hv He].
  change (sendRequest_finish (Get_start key w).1 sel w2).2 with (sendRequest_result sel).
  split; [exact Hv|]. split; [exact He|].
  destruct (Get_finish_value key (sendRequest_result sel)
              (sendRequest_finish (Get_start key w).1 sel w2).1 []) as [-> _].
  subst w2.
  unfold sendRequest_finish, delRequest, Get_start, sendRequest_start, nextSeq, addRequest,
    sendMsg.
  wsimpl. destruct (closeq (c w)) eqn:Hcq; wsimpl; by split_and!.
Qed.

End WithCollaborators.

(** The connection of the samples asks for the object of the all-zero key;
    the empty object arrives in reply, under [rseq = 1]; the timer of
    [sendRequest] fires. *)
Lemma Get_rejects_without_closing_witness :
  let key := replicate 32 0 in
  let raw := [9; 0; 0; 0; 1; 0; 0; 0; 6] in
  let w2 := receive Sample.Decode raw (Get_start key Sample.world).2 in
  let r := sendRequest_finish (Get_start key Sample.world).1 SelTimeout w2 in
  let g := Get_finish key r.2 r.1 in
  (forall r' w' v,
     (Get_finish key r' w').2 = (v, None) ->
     r' = (Some (Object v), None) /\ cipher.SumSHA256 v = key)
  /\ recv w2 = RecvSending (chans (c Sample.world)) (Object [])
  /\ g.2.1 = [] /\ is_Some g.2.2
  /\ closeq (c g.1) = closeq (c Sample.world)
  /\ fcClosed (c g.1) = fcClosed (c Sample.world)
  /\ closeo (c g.1) = closeo (c Sample.world)
  /\ events g.1 = events Sample.world.
Proof.
  apply (Get_rejects_without_closing Sample.Decode (replicate 32 0) []
           [9; 0; 0; 0; 1; 0; 0; 0; 6] SelTimeout Sample.world).
  - vm_compute. discriminate.
  - reflexivity.
  - reflexivity.
  - vm_compute. discriminate.
Defined.

(** C3 (counterexample). The connection of the samples has [Get] ask for the
    object of the all-zero key, the request going out under [seq = 1]; the
    empty object, whose hash differs, arrives in reply under [rseq = 1] and
    is handed to the sink of the request; the timer of [sendRequest] fires
    and [Get] returns its error. The connection is as open as before:
    [close] was not called, and no [onDisconenct]. *)
Lemma Get_mismatch_leaves_connection_open :
  let key := replicate 32 0 in
  let raw := [9; 0; 0; 0; 1; 0; 0; 0; 6] in
  cipher.SumSHA256 [] <> key
  /\ Codec.decodeRaw Sample.Decode raw = ok (9, 1, Object [])
  /\ exists w',
       steps Sample.Decode [StSendRequest (RqObject key); StReceive raw; StSelect 1 SelTimeout]
         Sample.world = Some w'
       /\ Get_finish key (sendRequest_result SelTimeout) w' = (w', ([], Some ErrTimeout))
       /\ closeq (c w') = false
       /\ fcClosed (c w') = false
       /\ closeo (c w') = OnceNew
       /\ disconnects w' = [].
Proof.
  cbv zeta. split; [vm_compute; discriminate|]. split; [vm_compute; reflexivity|].
  eexists. split; [vm_compute; reflexivity|]. vm_compute. by split_and!.
Qed.

End GetFacts.

(** ** Serving a request for an object *)

Module RqObjectFacts.

(** C9 (the code departs from the claim on the timeout reply). When the timer
    of [handleRqObject] fires, the reply sent for the request of [seq = sq]
    is an [Err] with the empty text, not [Err "timeout"]. *)
Theorem handleRqObject_timeout_reply sq key w :
  sendq (c (handleRqObject sq key ObjTimeout w)) =
  if closeq (c w) then sendq (c w)
  else sendq (c w) ++ [(u32 (seq (c w) + 1), sq, Err "")].
Proof.
  unfold handleRqObject, nextSeq, sendMsg. simpl.
  by destruct (closeq (c w)).
Qed.

(** The other two ways out: the object is sent when it arrives, nothing is
    sent when the connection closes. *)
Lemma handleRqObject_object_reply sq key val w :
  closeq (c w) = false ->
  sendq (c (handleRqObject sq key (ObjLater val) w)) =
  sendq (c w) ++ [(u32 (seq (c w) + 1), sq, Object val)].
Proof.
  intros Hopen. unfold handleRqObject, nextSeq, sendMsg. simpl.
  by rewrite Hopen.
Qed.

Lemma handleRqObject_closed_silent sq key w :
  sendq (c (handleRqObject sq key ObjClosed w)) = sendq (c w).
Proof. reflexivity. Qed.

(** A request for an object arrives with [seq = 9]; its task times out. *)
Example RqObject_timeout_run :
  (fun w => sendq (c w)) <$>
    steps Sample.Decode
      [StReceive [9; 0; 0; 0; 0; 0; 0; 0; 5; 7]; StRqObject 0 ObjTimeout] Sample.world
  = Some [(1, 9, Err "")].
Proof. vm_compute. reflexivity. Qed.

End RqObjectFacts.

(** ** The Feed Registry of the node *)

Module NodeFacts.

Lemma HasFeed_true pk s : HasFeed pk s = true <-> is_Some (feeds s !! pk).
Proof. unfold HasFeed. apply bool_decide_eq_true. Qed.

Lemma HasFeed_false pk s : HasFeed pk s = false <-> feeds s !! pk = None.
Proof.
  unfold HasFeed. rewrite bool_decide_eq_false. symmetry. apply eq_None_not_Some.
Qed.

(** A connection is subscribed only to a shared feed. *)
Lemma hasConnFeed_unshared c pk s : HasFeed pk s = false -> hasConnFeed c pk s = false.
Proof.
  rewrite HasFeed_false. intros Hnone. unfold hasConnFeed. rewrite Hnone.
  apply bool_decide_eq_false. set_solver.
Qed.

(** [Feeds] lists the shared feeds, each once, when the snapshot is in step. *)
Lemma Feeds_exact s :
  feedsl_ok s ->
  NoDup (Feeds s).2
  /\ (forall f, f ∈ (Feeds s).2 <-> is_Some (feeds s !! f))
  /\ feeds (Feeds s).1 = feeds s
  /\ feedsl_ok (Feeds s).1.
Proof.
  intros Hok. unfold Feeds.
  destruct (feedsl s) as [|f0 l0] eqn:Hl; simpl.
  - assert (Hdom : forall f, f ∈ (map_to_list (feeds s)).*1 <-> is_Some (feeds s !! f)).
    { intros f. rewrite list_elem_of_fmap. split.
      - intros [[k v] [-> Hin]]. apply elem_of_map_to_list in Hin. by exists v.
      - intros [v Hv]. exists (f, v). split; [done|]. by apply elem_of_map_to_list. }
    split_and!; [apply NoDup_fst_map_to_list | done | done |].
    right. split; [apply NoDup_fst_map_to_list | done].
  - destruct Hok as [Hnil | [Hnd Hin]]; [congruence|].
    rewrite Hl in Hnd, Hin. by split_and!; [| | | right; rewrite Hl].
Qed.

(** The snapshot stays in step under the operations of the node. *)
Lemma NewNode_feedsl_ok sc db : feedsl_ok (NewNode sc db).
Proof. by left. Qed.

Lemma AddFeed_feedsl_ok pk s : feedsl_ok s -> feedsl_ok (AddFeed pk s).1.
Proof.
  intros Hok. unfold AddFeed. destruct (feeds s !! pk); [done|].
  simpl. by left.
Qed.

Lemma delFeed_feedsl_ok pk s : feedsl_ok s -> feedsl_ok (delFeed pk s).1.
Proof.
  intros Hok. unfold delFeed. destruct (feeds s !! pk); [|done]. by left.
Qed.

Lemma feedsl_ok_same_keys s s' :
  feedsl s' = feedsl s ->
  (forall f, is_Some (feeds s' !! f) <-> is_Some (feeds s !! f)) ->
  feedsl_ok s -> feedsl_ok s'.
Proof.
  intros Hl Hk [Hnil | [Hnd Hin]]; [left; congruence|].
  right. rewrite Hl. split; [done|]. intros f. by rewrite Hin, Hk.
Qed.

Lemma addConnToFeed_feedsl_ok c pk s : feedsl_ok s -> feedsl_ok (addConnToFeed c pk s).1.
Proof.
  unfold addConnToFeed. destruct (feeds s !! pk) as [cs|] eqn:Hpk; [|done].
  apply feedsl_ok_same_keys; [done|]. intros f. simpl.
  destruct (decide (pk = f)) as [->|Hne].
  - rewrite lookup_insert_eq, Hpk. split; eauto.
  - by rewrite lookup_insert_ne.
Qed.

Lemma delConnFromFeed_feedsl_ok c pk s : feedsl_ok s -> feedsl_ok (delConnFromFeed c pk s).1.
Proof.
  unfold delConnFromFeed. destruct (feeds s !! pk) as [cs|] eqn:Hpk; [|done].
  destruct (decide (c ∈ cs)); [|done].
  apply feedsl_ok_same_keys; [done|]. intros f. simpl.
  destruct (decide (pk = f)) as [->|Hne].
  - rewrite lookup_insert_eq, Hpk. split; eauto.
  - by rewrite lookup_insert_ne.
Qed.

Lemma delConnection_feedsl_ok c s : feedsl_ok s -> feedsl_ok (delConnection c s).
Proof.
  apply feedsl_ok_same_keys.
  - unfold delConnection, delConnFromWantedObjects, delConn. simpl.
    destruct (index_of _ _); [|done]. by destruct (last _).
  - intros f. unfold delConnection, delConnFromWantedObjects, delConn. simpl.
    rewrite lookup_fmap, fmap_is_Some.
    destruct (index_of _ _); [|done]. by destruct (last _).
Qed.

End NodeFacts.

(** ** The unsolicited handlers *)

Module HandlerFacts.
Import NodeFacts.

(** What a reply does to an open connection: one [seq] is drawn and one frame
    is queued; the node, the tasks and the calls made are as before. *)
Lemma sendOk_open rseq w :
  closeq (c w) = false ->
  sendq (c (sendOk rseq w)) = sendq (c w) ++ [(u32 (seq (c w) + 1), rseq, Ok)].
Proof. intros Ho. unfold sendOk, nextSeq, sendMsg. simpl. by rewrite Ho. Qed.

Lemma sendErr_open rseq e w :
  closeq (c w) = false ->
  sendq (c (sendErr rseq e w)) = sendq (c w) ++ [(u32 (seq (c w) + 1), rseq, Err e)].
Proof. intros Ho. unfold sendErr, nextSeq, sendMsg. simpl. by rewrite Ho. Qed.

Lemma sendOk_frame rseq w :
  n (sendOk rseq w) = n w /\ closeq (c (sendOk rseq w)) = closeq (c w)
  /\ closeo (c (sendOk rseq w)) = closeo (c w) /\ id (c (sendOk rseq w)) = id (c w).
Proof.
  unfold sendOk, nextSeq, sendMsg. simpl.
  by destruct (closeq (c w)) eqn:E; simpl; rewrite ?E.
Qed.

Lemma sendErr_frame rseq e w :
  n (sendErr rseq e w) = n w /\ closeq (c (sendErr rseq e w)) = closeq (c w)
  /\ closeo (c (sendErr rseq e w)) = closeo (c w) /\ id (c (sendErr rseq e w)) = id (c w).
Proof.
  unfold sendErr, nextSeq, sendMsg. simpl.
  by destruct (closeq (c w)) eqn:E; simpl; rewrite ?E.
Qed.

Lemma sendRoot_open r w :
  closeq (c w) = false ->
  sendq (c (sendRoot r w)) =
  sendq (c w) ++ [(u32 (seq (c w) + 1), 0,
                   Root (registry.Pub r) (registry.Nonce r) (registry.Seq r)
                        (registry.Encoded r) (registry.Sig r))].
Proof. intros Ho. unfold sendRoot, nextSeq, sendMsg. simpl. by rewrite Ho. Qed.

Lemma addConnToFeed_member c pk s :
  HasFeed pk s = true -> c ∈ default ∅ (feeds (addConnToFeed c pk s).1 !! pk).
Proof.
  rewrite HasFeed_true. intros [cs Hcs]. unfold addConnToFeed. rewrite Hcs. simpl.
  rewrite lookup_insert_eq. simpl. set_solver.
Qed.

Section WithCollaborators.
Context `{Crypto} `{Callbacks}.

(** C6. An incoming [Sub f] with [f] not blank, which the callback
    [onSubscribeRemote] does not reject, for a feed [f] the node does not
    share (neither on arrival nor after the callback): the handler replies
    [Err "do not share the feed"] to the request, the connection is not among
    the subscribers of [f], and the handler reports no error, so the
    connection stays open. *)
Theorem handleSub_unshared sq feed w nd :
  feed <> blankPubKey ->
  HasFeed feed (n w) = false ->
  onSubscribeRemote (n w) (id (c w)) feed = (nd, None) ->
  HasFeed feed nd = false ->
  closeq (c w) = false ->
  (handleSub sq feed w).2 = None
  /\ sendq (c (handleSub sq feed w).1) =
     sendq (c w) ++ [(u32 (seq (c w) + 1), sq, Err "do not share the feed")]
  /\ (id (c w) ∉ default ∅ (feeds (n (handleSub sq feed w).1) !! feed))
  /\ closeq (c (handleSub sq feed w).1) = false
  /\ closeo (c (handleSub sq feed w).1) = closeo (c w).
Proof.
  intros Hnb Hun Hcb Hun' Hopen. unfold handleSub.
  rewrite decide_False by done.
  rewrite (hasConnFeed_unshared _ _ _ Hun), Hcb. simpl. rewrite Hun'. simpl.
  destruct (sendErr_frame sq "do not share the feed" (set_n nd w)) as (Hn & Hq & Ho & _).
  split_and!; [done | by rewrite sendErr_open | | by rewrite Hq | by rewrite Ho].
  rewrite Hn. simpl. apply HasFeed_false in Hun'. rewrite Hun'. set_solver.
Qed.

(** The same at the receive task: the frame of such a [Sub], with no request
    pending under its [rseq], leaves the task in its loop and [close] not
    called. *)
Lemma receive_Sub_unshared_stays_open (msg_Decode : bytes -> result Msg) raw feed w nd :
  9 <= Z.of_nat (length raw) ->
  msg_Decode (drop 4 (drop 4 raw)) = ok (Sub feed) ->
  reqs (c w) !! Codec.Uint32 (drop 4 raw) = None ->
  feed <> blankPubKey ->
  HasFeed feed (n w) = false ->
  onSubscribeRemote (n w) (id (c w)) feed = (nd, None) ->
  HasFeed feed nd = false ->
  closeq (c w) = false ->
  receive msg_Decode raw w = (handleSub (Codec.Uint32 raw) feed w).1
  /\ recv (receive msg_Decode raw w) = recv w
  /\ closeq (c (receive msg_Decode raw w)) = false
  /\ closeo (c (receive msg_Decode raw w)) = closeo (c w).
Proof.
  intros Hlen Hdec Hnone Hnb Hun Hcb Hun' Hopen.
  assert (Hsub : handleSub (Codec.Uint32 raw) feed w =
                 (sendErr (Codec.Uint32 raw) "do not share the feed" (set_n nd w), None)).
  { unfold handleSub. rewrite decide_False by done.
    rewrite (hasConnFeed_unshared _ _ _ Hun), Hcb. wsimpl. by rewrite Hun'. }
  assert (Heq : receive msg_Decode raw w = (handleSub (Codec.Uint32 raw) feed w).1).
  { unfold receive, isResponse.
    destruct (Z.ltb_spec (Z.of_nat (length raw)) 9); [lia|].
    rewrite Hdec, Hnone. cbn [handle]. by rewrite Hsub. }
  rewrite Heq, Hsub. cbn [fst].
  unfold sendErr, nextSeq, sendMsg. wsimpl. by rewrite Hopen.
Qed.

(** C5 (amended). The peer's [handleSub], for a [Sub] of a feed that is not
    blank, from a connection not yet subscribed to it, that the callback
    [onSubscribeRemote] accepts and that the peer shares, replies [Ok] to
    the [Sub], adds the connection of the subscriber to the subscribers of
    the feed, and sends nothing else: no Root follows the [Ok]. *)
Theorem subscribe_happy_path sq feed w nd :
  feed <> blankPubKey ->
  hasConnFeed (id (c w)) feed (n w) = false ->
  onSubscribeRemote (n w) (id (c w)) feed = (nd, None) ->
  HasFeed feed nd = true ->
  closeq (c w) = false ->
  (handleSub sq feed w).2 = None
  /\ sendq (c (handleSub sq feed w).1) = sendq (c w) ++ [(u32 (seq (c w) + 1), sq, Ok)]
  /\ id (c w) ∈ default ∅ (feeds (n (handleSub sq feed w).1) !! feed).
Proof.
  intros Hnb Hnot Hcb Hsh Hopen.
  unfold handleSub. rewrite decide_False by done. rewrite Hnot, Hcb. simpl.
  rewrite Hsh. simpl.
  set (w1 := set_n (addConnToFeed (id (c w)) feed nd).1 (set_n nd w)).
  destruct (sendOk_frame sq w1) as (Hn & _).
  split_and!; [done | by rewrite sendOk_open | ].
  rewrite Hn. subst w1. simpl. by apply addConnToFeed_member.
Qed.


End WithCollaborators.

(** The node of the samples does not share the feed [feed 2]. *)
Lemma handleSub_unshared_witness :
  (handleSub 5 (Sample.feed 2) Sample.world).2 = None
  /\ sendq (c (handleSub 5 (Sample.feed 2) Sample.world).1) =
     sendq (c Sample.world) ++
     [(u32 (seq (c Sample.world) + 1), 5, Err "do not share the feed")]
  /\ (id (c Sample.world) ∉
      default ∅ (feeds (n (handleSub 5 (Sample.feed 2) Sample.world).1) !! Sample.feed 2))
  /\ closeq (c (handleSub 5 (Sample.feed 2) Sample.world).1) = false
  /\ closeo (c (handleSub 5 (Sample.feed 2) Sample.world).1) = closeo (c Sample.world).
Proof.
  apply (handleSub_unshared 5 (Sample.feed 2) Sample.world Sample.node).
  - vm_compute. discriminate.
  - vm_compute. reflexivity.
  - reflexivity.
  - vm_compute. reflexivity.
  - reflexivity.
Defined.

(** The node of the samples shares the feed [feed 1]; a [Sub] of it arrives
    with [seq = 5]. *)
Lemma subscribe_happy_path_witness :
  (handleSub 5 (Sample.feed 1) Sample.world).2 = None
  /\ sendq (c (handleSub 5 (Sample.feed 1) Sample.world).1) =
     sendq (c Sample.world) ++ [(u32 (seq (c Sample.world) + 1), 5, Ok)]
  /\ id (c Sample.world) ∈
     default ∅ (feeds (n (handleSub 5 (Sample.feed 1) Sample.world).1) !! Sample.feed 1).
Proof.
  apply (subscribe_happy_path 5 (Sample.feed 1) Sample.world Sample.node).
  - vm_compute. discriminate.
  - vm_compute. reflexivity.
  - reflexivity.
  - vm_compute. reflexivity.
  - reflexivity.
Defined.

(** C5 (counterexample). The peer shares the feed [feed 1] and has a latest
    Root of it; on [Sub (feed 1)] its [handleSub] accepts, and all it sends is
    the one frame [Ok]: no Root goes to the subscriber. *)
Lemma handleSub_sends_no_Root :
  skyobject.LastRoot (so (n Sample.world)) (Sample.feed 1)
    (skyobject.ActiveHead (so (n Sample.world)) (Sample.feed 1)) = (Some Sample.root5, None)
  /\ sendq (c Sample.world) = []
  /\ (handleSub 5 (Sample.feed 1) Sample.world).2 = None
  /\ sendq (c (handleSub 5 (Sample.feed 1) Sample.world).1) = [(1, 5, Ok)]
  /\ elements <$> feeds (n (handleSub 5 (Sample.feed 1) Sample.world).1) !! Sample.feed 1
     = Some [id (c Sample.world)].
Proof. vm_compute. repeat split. Qed.


(** The list sent by the node of the samples. *)
Example handleRqList_sample :
  sendq (c (handleRqList 5 Sample.world).1) = [(1, 5, List [Sample.feed 1])].
Proof. vm_compute. reflexivity. Qed.

End HandlerFacts.

(** ** Roots pushed by the peer *)

Module RootFacts.

Lemma highest_elem rs r : skyobject.highest rs = Some r -> r ∈ rs.
Proof.
  revert r. induction rs as [|x rs IH]; intros r; simpl; [done|].
  destruct (skyobject.highest rs) as [r'|].
  - destruct (_ <? _); intros [= <-]; [left | right; by apply IH].
  - intros [= <-]. left.
Qed.






Section WithCollaborators.
Context `{Crypto} `{Callbacks}.







End WithCollaborators.





(** Root supersession: with the Root of [seq = 5] stored, the Roots of
    [seq = 6], [4], [6] and [7] arrive; those of [seq = 4] and the second of
    [seq = 6] are dropped without a call of [ReceivedRoot]. *)
Example handleAll_sample :
  let ms := [Root (Sample.feed 1) 0 6 [1; 0; 6] []; Root (Sample.feed 1) 0 4 [1; 0; 4] [];
             Root (Sample.feed 1) 0 6 [1; 0; 6] []; Root (Sample.feed 1) 0 7 [1; 0; 7] []] in
  seqsOf (Sample.feed 1) 0 (so (n (handleAll ms Sample.world))) = [5; 6; 7]
  /\ length (events (handleAll ms Sample.world)) = 4%nat.
Proof. vm_compute. by split. Qed.

End RootFacts.

(** ** Invariants of a running connection *)

Module StepFacts.

Lemma disconnects_emit e w :
  disconnects (emit e w) =
  disconnects w ++ match e with EvOnDisconnect r => [r] | _ => [] end.
Proof. unfold disconnects. wsimpl. rewrite omap_app. by destruct e. Qed.

(** [seq_ok] reads the counter, the number drawn and the pending requests. *)
Lemma seq_ok_ext cn cn' :
  seq cn' = seq cn -> drawn cn' = drawn cn -> reqs cn' = reqs cn ->
  seq_ok cn -> seq_ok cn'.
Proof. unfold seq_ok. intros -> -> ->. done. Qed.

Lemma u32_succ v : u32 (u32 v + 1) = u32 (v + 1).
Proof. unfold u32. by rewrite Zplus_mod_idemp_l. Qed.

Lemma seq_ok_draw cn cn' :
  seq cn' = u32 (seq cn + 1) -> drawn cn' = drawn cn + 1 -> reqs cn' = reqs cn ->
  seq_ok cn -> seq_ok cn'.
Proof.
  unfold seq_ok. intros -> -> -> (Hd & Hs & Hk). split_and!; [lia | |].
  - rewrite Hs. apply u32_succ.
  - intros k rq Hrq. destruct (Hk k rq Hrq) as (j & Hj & ->). exists j. split; [lia|done].
Qed.

Lemma preserved_refl w : preserved w w.
Proof. by split. Qed.

Lemma preserved_trans w1 w2 w3 : preserved w1 w2 -> preserved w2 w3 -> preserved w1 w3.
Proof.
  intros [] []. split; try congruence; try lia; auto.
Qed.

Lemma preserved_set_n nd w : preserved w (set_n nd w).
Proof. by split. Qed.

Lemma preserved_nextSeq w : preserved w (nextSeq w).2.
Proof.
  unfold nextSeq. split; wsimpl; try done. by apply seq_ok_draw.
Qed.

Lemma preserved_sendMsg sq rseq m w : preserved w (sendMsg sq rseq m w).
Proof.
  unfold sendMsg. destruct (closeq (c w)) eqn:E; [apply preserved_refl|].
  by split.
Qed.

Lemma preserved_emit e w :
  match e with EvOnDisconnect _ => False | _ => True end -> preserved w (emit e w).
Proof.
  intros He. split; try done.
  rewrite disconnects_emit. destruct e; try done; apply app_nil_r.
Qed.

Lemma preserved_sendOk rseq w : preserved w (sendOk rseq w).
Proof.
  unfold sendOk. pose proof (preserved_nextSeq w) as Hn.
  destruct (nextSeq w) as [sq w1]. eapply preserved_trans; [exact Hn|].
  apply preserved_sendMsg.
Qed.

Lemma preserved_sendErr rseq e w : preserved w (sendErr rseq e w).
Proof.
  unfold sendErr. pose proof (preserved_nextSeq w) as Hn.
  destruct (nextSeq w) as [sq w1]. eapply preserved_trans; [exact Hn|].
  apply preserved_sendMsg.
Qed.

Lemma preserved_sendRoot r w : preserved w (sendRoot r w).
Proof.
  unfold sendRoot. pose proof (preserved_nextSeq w) as Hn.
  destruct (nextSeq w) as [sq w1]. eapply preserved_trans; [exact Hn|].
  apply preserved_sendMsg.
Qed.

Create HintDb pres.

#[local] Hint Resolve preserved_refl preserved_set_n preserved_nextSeq preserved_sendMsg
  preserved_sendOk preserved_sendErr preserved_sendRoot : pres.

Section WithCollaborators.
Context `{Crypto} `{Callbacks}.
Variable msg_Decode : bytes -> result Msg.

Lemma preserved_handleSub sq feed w : preserved w (handleSub sq feed w).1.
Proof.
  unfold handleSub. case_decide; [apply preserved_refl|].
  destruct (hasConnFeed _ _ _); [apply preserved_sendOk|].
  destruct (onSubscribeRemote _ _ _) as [nd [e|]]; cbn [fst].
  - eapply preserved_trans; [apply (preserved_set_n nd)|apply preserved_sendErr].
  - destruct (negb _); cbn [fst].
    + eapply preserved_trans; [apply (preserved_set_n nd)|apply preserved_sendErr].
    + eapply preserved_trans; [apply (preserved_set_n nd)|].
      eapply preserved_trans; [apply preserved_set_n|apply preserved_sendOk].
Qed.

Lemma preserved_handleRoot_receive val sig w :
  preserved w (handleRoot_receive val sig w).1.
Proof.
  unfold handleRoot_receive.
  destruct (skyobject.ReceivedRoot _ _ _) as [so' r].
  assert (preserved w (emit (EvReceivedRoot sig val) (set_n (set_so so' (n w)) w))).
  { eapply preserved_trans; [apply preserved_set_n|]. by apply preserved_emit. }
  destruct r as [r|e]; [|done].
  destruct (registry.IsFull r); [done|]. cbn [fst].
  eapply preserved_trans; [eassumption|]. by apply preserved_emit.
Qed.

Lemma preserved_handleRoot feed nonce sq val sig w :
  preserved w (handleRoot feed nonce sq val sig w).1.
Proof.
  pose proof (preserved_handleRoot_receive val sig w) as Hr.
  unfold handleRoot.
  destruct (skyobject.LastRootSeq _ _ _) as [last [[]|]];
    try destruct (sq <=? last); first [exact Hr | apply preserved_refl].
Qed.

Lemma preserved_handle sq m w : preserved w (handle sq m w).1.
Proof.
  destruct m; cbn [handle fst]; try apply preserved_refl.
  - apply preserved_handleSub.
  - unfold handleUnsub. case_decide; cbn [fst]; auto with pres.
  - unfold handleRqList. destruct (negb _); cbn [fst]; [auto with pres|].
    pose proof (preserved_nextSeq w) as Hn. destruct (nextSeq w) as [s w1].
    destruct (Feeds (n w1)) as [nd l]. cbn [fst snd] in *.
    eapply preserved_trans; [exact Hn|].
    eapply preserved_trans; [apply (preserved_set_n nd)|auto with pres].
  - apply preserved_handleRoot.
  - split; wsimpl; try done. rewrite length_app. simpl. lia.
  - unfold handleRqPreview.
    pose proof (preserved_nextSeq w) as Hn.
    destruct (skyobject.LastRoot _ _ _) as [[r|] [e|]];
      destruct (nextSeq w) as [s w1]; cbn [fst snd] in *;
      (eapply preserved_trans; [exact Hn|auto with pres]).
Qed.

(** [close] leaves the counter, the pending requests, the wait group and the
    tasks as they are. *)
Lemma close_frame reason w :
  seq (c (close reason w).1) = seq (c w)
  /\ drawn (c (close reason w).1) = drawn (c w)
  /\ reqs (c (close reason w).1) = reqs (c w)
  /\ await (c (close reason w).1) = await (c w)
  /\ recv (close reason w).1 = recv w
  /\ tasks (close reason w).1 = tasks w.
Proof.
  unfold close, close_body. destruct (closeo (c w)); wsimpl; try done.
  by destruct (_ =? 0).
Qed.

(** With the wait group of a started connection, [close] does not return and
    [onDisconenct] is not called. *)
Lemma close_await_ok reason w :
  await_ok w ->
  (close reason w).2 = false
  /\ closeo (c (close reason w).1) <> OnceDone
  /\ disconnects (close reason w).1 = disconnects w.
Proof.
  intros (Hr & Ho & Ha). unfold close, close_body.
  assert (await (c w) <> 0) by (destruct (recv w); simpl in Ha; lia).
  destruct (closeo (c w)) eqn:Hc; wsimpl; [|by rewrite Hc|done].
  by destruct (Z.eqb_spec (await (c w)) 0).
Qed.

Lemma await_ok_close reason w : await_ok w -> await_ok (close reason w).1.
Proof.
  intros Hok. destruct (close_await_ok reason w Hok) as (_ & Ho & _).
  destruct (close_frame reason w) as (_ & _ & _ & Ha & Hr & Ht).
  destruct Hok as (? & ? & ?). unfold await_ok. by rewrite Ha, Hr, Ht.
Qed.

Lemma seq_ok_close reason w : seq_ok (c w) -> seq_ok (c (close reason w).1).
Proof.
  destruct (close_frame reason w) as (? & ? & ? & _). by apply seq_ok_ext.
Qed.

(** [fatality] in the receive task of a started connection: the task stays
    suspended in [close]. *)
Lemma receiving_fatality_await_ok e w :
  await_ok w -> recv w = RecvRunning ->
  await_ok (receiving_fatality e w)
  /\ disconnects (receiving_fatality e w) = disconnects w.
Proof.
  intros Hok Hrun. unfold receiving_fatality.
  destruct (close_await_ok (Some e) w Hok) as (Hret & Ho & Hd).
  pose proof (await_ok_close (Some e) w Hok) as Hok'.
  destruct (close_frame (Some e) w) as (_ & _ & _ & _ & Hr & _).
  destruct (close (Some e) w) as [w' b]. cbn [fst snd] in *. subst b.
  split; [|done]. destruct Hok' as (? & ? & Ha). rewrite Hr, Hrun in Ha.
  by split_and!.
Qed.

Lemma receiving_fatality_seq_ok e w :
  seq_ok (c w) -> seq_ok (c (receiving_fatality e w)).
Proof.
  intros Hok. unfold receiving_fatality.
  pose proof (seq_ok_close (Some e) w Hok) as Hok'.
  destruct (close (Some e) w) as [w' []]; cbn [fst] in Hok'; [|done].
  eapply seq_ok_ext; [..|exact Hok']; done.
Qed.

Lemma await_ok_preserved w w' : preserved w w' -> await_ok w -> await_ok w'.
Proof.
  intros [] (? & ? & ?). unfold await_ok.
  rewrite pres_recv0, pres_closeo0. split_and!; [done..|lia].
Qed.

(** One round of the receive task keeps the invariants. *)
Lemma receive_await_ok raw w :
  await_ok w -> recv w = RecvRunning ->
  await_ok (receive msg_Decode raw w)
  /\ disconnects (receive msg_Decode raw w) = disconnects w.
Proof.
  intros Hok Hrun. unfold receive.
  destruct (_ <? 9); [by apply receiving_fatality_await_ok|].
  destruct (msg_Decode _) as [m|e]; [|by apply receiving_fatality_await_ok].
  destruct (isResponse _ _) as [rq|].
  - split; [|done]. destruct Hok as (? & ? & Ha). rewrite Hrun in Ha.
    by split_and!.
  - pose proof (preserved_handle (Codec.Uint32 raw) m w) as Hp.
    destruct (handle _ m w) as [w' [e|]]; cbn [fst] in Hp.
    + destruct (receiving_fatality_await_ok ("error handling messege: " +:+ e) w')
        as [? Hd]; [by eapply await_ok_preserved | by rewrite (pres_recv _ _ Hp) |].
      split; [done|]. by rewrite Hd, (pres_disc _ _ Hp).
    + split; [by eapply await_ok_preserved | apply (pres_disc _ _ Hp)].
Qed.

Lemma receive_seq_ok raw w :
  seq_ok (c w) -> seq_ok (c (receive msg_Decode raw w)).
Proof.
  intros Hok. unfold receive.
  destruct (_ <? 9); [by apply receiving_fatality_seq_ok|].
  destruct (msg_Decode _) as [m|e]; [|by apply receiving_fatality_seq_ok].
  destruct (isResponse _ _) as [rq|]; [done|].
  pose proof (preserved_handle (Codec.Uint32 raw) m w) as Hp.
  destruct (handle _ m w) as [w' [e|]]; cbn [fst] in Hp.
  - apply receiving_fatality_seq_ok. by apply (pres_seq _ _ Hp).
  - by apply (pres_seq _ _ Hp).
Qed.

Lemma preserved_handleRqObject_reply sq ev w :
  preserved w
    match ev with
    | ObjNow val | ObjLater val =>
        let '(s, w) := nextSeq w in sendMsg s sq (Object val) w
    | ObjTimeout => let '(s, w) := nextSeq w in sendMsg s sq (Err "") w
    | ObjClosed => w
    end.
Proof.
  pose proof (preserved_nextSeq w) as Hn.
  destruct ev; destruct (nextSeq w) as [s w1]; cbn [snd] in Hn;
    first [apply preserved_refl | eapply preserved_trans; [exact Hn|auto with pres]].
Qed.

Lemma sendRequest_start_frame m w :
  recv (sendRequest_start m w).2 = recv w
  /\ closeo (c (sendRequest_start m w).2) = closeo (c w)
  /\ await (c (sendRequest_start m w).2) = await (c w)
  /\ tasks (sendRequest_start m w).2 = tasks w
  /\ disconnects (sendRequest_start m w).2 = disconnects w.
Proof.
  unfold sendRequest_start, nextSeq, addRequest, sendMsg, disconnects. wsimpl.
  by destruct (closeq (c w)).
Qed.

(** Every step of a started connection keeps its wait group above zero, and
    [onDisconenct] is not called. *)
Lemma step_await_ok st w w' :
  await_ok w -> step msg_Decode st w = Some w' ->
  await_ok w' /\ disconnects w' = disconnects w.
Proof.
  intros Hok. pose proof Hok as (Hr & Ho & Ha).
  destruct st; cbn [step].
  - destruct (recv w); done.
  - destruct (recv w) eqn:Hrun; try done. intros [= <-]. by apply receive_await_ok.
  - destruct (recv w) eqn:Hrun; try done. intros [= <-].
    unfold receiving_return, await_ok. wsimpl. simpl in *.
    split; [split_and!; [done..|lia] | done].
  - destruct (recv w) eqn:Hrun; try done. destruct (closeq (c w)); [|done].
    intros [= <-]. unfold receiving_return, await_ok. wsimpl. simpl in *.
    split; [split_and!; [done..|lia] | done].
  - intros [= <-]. split; [by apply await_ok_close | by apply close_await_ok].
  - unfold wait_return. destruct (closeo (c w)); try done.
    destruct (Z.eqb_spec (await (c w)) 0) as [Hz|]; [|done].
    destruct (recv w); simpl in Ha; lia.
  - destruct (tasks w !! i) as [[sq key]|] eqn:Hi; [|done].
    destruct (match ev with ObjNow _ | ObjLater _ => true | _ => _ end); [|done].
    intros [= <-]. unfold handleRqObject.
    pose proof (preserved_handleRqObject_reply sq ev
                  (set_tasks (delete i (tasks w)) w)) as Hp.
    set (w1 := match ev with ObjClosed => _ | _ => _ end) in *.
    destruct Hp as [Hp1 Hp2 _ _ Hp5 Hp6 _]. wsimpl. unfold await_ok. wsimpl.
    rewrite length_delete in Hp6 by eauto. apply lookup_lt_Some in Hi.
    rewrite Hp1, Hp2. split; [split_and!; [done..|lia]|done].
  - intros Hst. assert (w' = (sendRequest_start m w).2) as -> by congruence.
    destruct (sendRequest_start_frame m w) as (E1 & E2 & E3 & E4 & E5).
    unfold await_ok. by rewrite E1, E2, E3, E4, E5.
  - destruct sel; [by rewrite ReceiveFacts.select_send_never_ready|..];
      (destruct (select_ready _ _ _); [|done]); intros [= <-]; done.
  - intros [= <-]. pose proof (preserved_sendRoot r w) as Hp.
    split; [by eapply await_ok_preserved | apply (pres_disc _ _ Hp)].
  - intros [= <-]. unfold Subscribe_start.
    destruct (AddFeed feed (n w)) as [nd [e|]]; done.
  - intros [= <-]. unfold Unsubscribe.
    set (w0 := set_n _ w).
    pose proof (preserved_nextSeq w0) as Hn. destruct (nextSeq w0) as [sq w1].
    cbn [snd] in *.
    assert (Hp : preserved w (sendMsg sq 0 (Unsub feed) w1)).
    { eapply preserved_trans; [apply (preserved_set_n (n w0))|].
      eapply preserved_trans; [exact Hn|auto with pres]. }
    split; [by eapply await_ok_preserved | apply (pres_disc _ _ Hp)].
Qed.


Lemma sendRequest_start_seq_ok m w :
  seq_ok (c w) -> seq_ok (c (sendRequest_start m w).2).
Proof.
  intros (Hd & Hs & Hk).
  assert (Hc : seq (c (sendRequest_start m w).2) = u32 (seq (c w) + 1)
               /\ drawn (c (sendRequest_start m w).2) = drawn (c w) + 1
               /\ reqs (c (sendRequest_start m w).2) =
                  <[u32 (seq (c w) + 1) := chans (c w)]> (reqs (c w))).
  { unfold sendRequest_start, nextSeq, addRequest, sendMsg. wsimpl.
    by destruct (closeq (c w)). }
  destruct Hc as (Hs' & Hd' & Hr'). unfold seq_ok. rewrite Hs', Hd', Hr', Hs.
  split_and!; [lia | apply u32_succ |].
  intros k rq. destruct (decide (u32 (u32 (drawn (c w)) + 1) = k)) as [<-|Hne].
  - intros _. exists (drawn (c w) + 1). split; [lia | apply u32_succ].
  - rewrite lookup_insert_ne by done. intros Hrq.
    destruct (Hk k rq Hrq) as (j & Hj & ->). exists j. split; [lia|done].
Qed.

Lemma delRequest_seq_ok sq w : seq_ok (c w) -> seq_ok (c (delRequest sq w)).
Proof.
  intros (Hd & Hs & Hk). unfold seq_ok, delRequest. wsimpl. split_and!; [done..|].
  intros k rq Hrq. apply lookup_delete_Some in Hrq as [_ Hrq]. eauto.
Qed.

(** Every step keeps the counter in step with the number of [seq]s drawn. *)
Lemma step_seq_ok st w w' :
  seq_ok (c w) -> step msg_Decode st w = Some w' -> seq_ok (c w').
Proof.
  intros Hok. destruct st; cbn [step].
  - destruct (recv w); try done. by intros [= <-].
  - destruct (recv w); try done. intros [= <-]. by apply receive_seq_ok.
  - destruct (recv w); try done. by intros [= <-].
  - destruct (recv w); try done. destruct (closeq (c w)); [|done]. by intros [= <-].
  - intros [= <-]. by apply seq_ok_close.
  - unfold wait_return. destruct (closeo (c w)); try done.
    destruct (_ =? 0); [|done]. cbn zeta. wsimpl. destruct (recv w); by intros [= <-].
  - destruct (tasks w !! i) as [[sq key]|]; [|done].
    destruct (match ev with ObjNow _ | ObjLater _ => true | _ => _ end); [|done].
    intros [= <-]. unfold handleRqObject.
    pose proof (preserved_handleRqObject_reply sq ev
                  (set_tasks (delete i (tasks w)) w)) as Hp.
    set (w1 := match ev with ObjClosed => _ | _ => _ end) in *.
    apply (pres_seq _ _ Hp) in Hok. by eapply seq_ok_ext; [..|exact Hok].
  - intros Hst. assert (w' = (sendRequest_start m w).2) as -> by congruence.
    by apply sendRequest_start_seq_ok.
  - destruct sel; [by rewrite ReceiveFacts.select_send_never_ready|..];
      (destruct (select_ready _ _ _); [|done]); intros [= <-];
      by apply delRequest_seq_ok.
  - intros [= <-]. by apply (pres_seq _ _ (preserved_sendRoot r w)).
  - intros [= <-]. unfold Subscribe_start.
    destruct (AddFeed feed (n w)) as [nd [e|]]; done.
  - intros [= <-]. unfold Unsubscribe.
    set (w0 := set_n _ w).
    pose proof (preserved_nextSeq w0) as Hn. destruct (nextSeq w0) as [sq w1].
    cbn [snd] in *.
    apply (pres_seq _ _ (preserved_sendMsg sq 0 (Unsub feed) w1)).
    by apply (pres_seq _ _ Hn).
Qed.

Lemma steps_await_ok sts w w' :
  await_ok w -> steps msg_Decode sts w = Some w' ->
  await_ok w' /\ disconnects w' = disconnects w.
Proof.
  revert w. induction sts as [|st sts IH]; intros w Hok; simpl.
  - by intros [= <-].
  - destruct (step msg_Decode st w) as [w1|] eqn:Hst; [|done]. intros Hsts.
    destruct (step_await_ok st w w1 Hok Hst) as [Hok1 Hd1].
    destruct (IH w1 Hok1 Hsts) as [Hok' Hd']. split; [done|congruence].
Qed.

Lemma steps_seq_ok sts w w' :
  seq_ok (c w) -> steps msg_Decode sts w = Some w' -> seq_ok (c w').
Proof.
  revert w. induction sts as [|st sts IH]; intros w Hok; simpl.
  - by intros [= <-].
  - destruct (step msg_Decode st w) as [w1|] eqn:Hst; [|done].
    apply IH. by eapply step_seq_ok.
Qed.

Lemma run_await_ok nd cid : await_ok (run (newConnection nd cid)).
Proof. by split_and!. Qed.

Lemma newConnection_seq_ok nd cid : seq_ok (c (newConnection nd cid)).
Proof. split_and!; [done..|]. intros k rq Hrq. simpl in Hrq. done. Qed.

Lemma u32_small j : 1 <= j < 2 ^ 32 -> u32 j <> 0.
Proof. intros Hj. unfold u32. rewrite Z.mod_small; lia. Qed.

(** C8 (the code departs from the close sequence). Whatever the tasks of a
    started connection do, and however often [Close] is called, the callback
    [onDisconenct] is never called: [run] adds two to the wait group and only
    the receive task calls [Done], so the [Wait] of [close] does not return. *)
Theorem close_never_disconnects nd cid sts w :
  steps msg_Decode sts (run (newConnection nd cid)) = Some w ->
  disconnects w = [] /\ closeo (c w) <> OnceDone.
Proof.
  intros Hsts.
  destruct (steps_await_ok sts _ w (run_await_ok nd cid) Hsts) as [(_ & Ho & _) Hd].
  by split.
Qed.

(** The first [seq] drawn on a new connection is 1. *)
Lemma nextSeq_first nd cid : (nextSeq (newConnection nd cid)).1 = 1.
Proof. reflexivity. Qed.

(** C10 (amended). The counter starts at zero and [nextSeq] increments before
    it returns; as long as fewer than [2^32] sequence numbers have been drawn
    on the connection (every outbound message draws one, not only the
    requests), no pending request is registered under [seq = 0], so an
    incoming message with [rseq = 0] matches no sink: the receive task
    dispatches it to the unsolicited handlers. *)
Theorem no_request_under_seq_zero nd cid sts w :
  steps msg_Decode sts (newConnection nd cid) = Some w ->
  drawn (c w) < 2 ^ 32 ->
  reqs (c w) !! 0 = None
  /\ isResponse 0 w = None
  /\ forall raw m,
       9 <= Z.of_nat (length raw) ->
       Codec.Uint32 (drop 4 raw) = 0 ->
       msg_Decode (drop 4 (drop 4 raw)) = ok m ->
       receive msg_Decode raw w =
       match handle (Codec.Uint32 raw) m w with
       | (w', Some e) => receiving_fatality ("error handling messege: " +:+ e) w'
       | (w', None) => w'
       end.
Proof.
  intros Hsts Hlt.
  pose proof (steps_seq_ok sts _ w (newConnection_seq_ok nd cid) Hsts) as (Hd & Hs & Hk).
  assert (Hnone : reqs (c w) !! 0 = None).
  { destruct (reqs (c w) !! 0) as [rq|] eqn:Hrq; [|done].
    destruct (Hk 0 rq Hrq) as (j & Hj & Hz). symmetry in Hz.
    by apply u32_small in Hz; [|lia]. }
  split_and!; [done..|].
  intros raw m Hlen Hr Hm. unfold receive, isResponse.
  destruct (Z.ltb_spec (Z.of_nat (length raw)) 9); [lia|].
  by rewrite Hm, Hr, Hnone.
Qed.

End WithCollaborators.

(** [Close] called twice on the running connection of the samples. *)
Lemma close_never_disconnects_witness :
  let w := default Sample.world
             (steps Sample.Decode [StClose None; StClose None] Sample.world) in
  disconnects w = [] /\ closeo (c w) <> OnceDone.
Proof.
  apply (close_never_disconnects Sample.Decode Sample.node 1%positive
           [StClose None; StClose None]).
  vm_compute. reflexivity.
Defined.

(** [Close] is called on a started connection, the receive task sees [closeq]
    closed and returns, [Close] is called again: [closeq] and the transport
    are closed, the wait group is at one, the first [close] is still in its
    [Wait] and [onDisconenct] was not called. *)
Example close_twice_running :
  (fun w => (closeq (c w), fcClosed (c w), recv w, await (c w), closeo (c w), disconnects w))
    <$> steps Sample.Decode [StClose None; StReceiveClosed; StClose None] Sample.world
  = Some (true, true, RecvExited, 1, OnceRunning None, []).
Proof. vm_compute. reflexivity. Qed.

(** On a connection that was not started the wait group is at zero: [close]
    runs through, once. *)
Example close_twice_not_started :
  (fun w => (closeo (c w), disconnects w))
    <$> steps Sample.Decode [StClose None; StClose (Some "again")]
          (newConnection Sample.node 1%positive)
  = Some (OnceDone, [None]).
Proof. vm_compute. reflexivity. Qed.

(** A new connection of the samples is started and makes one request. *)
Lemma no_request_under_seq_zero_witness :
  let w := default Sample.world
             (steps Sample.Decode [StRun; StSendRequest RqList]
                (newConnection Sample.node 1%positive)) in
  reqs (c w) !! 0 = None
  /\ isResponse 0 w = None
  /\ forall raw m,
       9 <= Z.of_nat (length raw) ->
       Codec.Uint32 (drop 4 raw) = 0 ->
       Sample.Decode (drop 4 (drop 4 raw)) = ok m ->
       receive Sample.Decode raw w =
       match handle (Codec.Uint32 raw) m w with
       | (w', Some e) => receiving_fatality ("error handling messege: " +:+ e) w'
       | (w', None) => w'
       end.
Proof.
  apply (no_request_under_seq_zero Sample.Decode Sample.node 1%positive
           [StRun; StSendRequest RqList]).
  - vm_compute. reflexivity.
  - vm_compute. reflexivity.
Defined.

(** [k] Roots pushed: the counter moves by [k], no request is registered. *)
Lemma iter_sendRoot k r w :
  0 <= seq (c w) < 2 ^ 32 ->
  seq (c (Nat.iter k (sendRoot r) w)) = u32 (seq (c w) + Z.of_nat k)
  /\ reqs (c (Nat.iter k (sendRoot r) w)) = reqs (c w)
  /\ chans (c (Nat.iter k (sendRoot r) w)) = chans (c w).
Proof.
  intros Hrange.
  assert (Hone : forall w,
             seq (c (sendRoot r w)) = u32 (seq (c w) + 1)
             /\ reqs (c (sendRoot r w)) = reqs (c w)
             /\ chans (c (sendRoot r w)) = chans (c w)).
  { intros w0. unfold sendRoot, nextSeq, sendMsg. wsimpl. by destruct (closeq (c w0)). }
  induction k as [|k (IHs & IHr & IHc)].
  - cbn [Nat.iter nat_rect]. rewrite Z.add_0_r. unfold u32.
    by rewrite Z.mod_small.
  - rewrite Nat.iter_succ. destruct (Hone (Nat.iter k (sendRoot r) w)) as (Hs & Hr & Hc).
    split_and!; [|congruence..].
    rewrite Hs, IHs, u32_succ. f_equal. lia.
Qed.

(** A request on a connection whose counter is at [2^32 - 1] is registered
    under [seq = 0]. *)
Lemma sendRequest_start_wraps m w :
  seq (c w) = 2 ^ 32 - 1 ->
  reqs (c (sendRequest_start m w).2) !! 0 = Some (chans (c w)).
Proof.
  intros Hs.
  assert (Hreq : reqs (c (sendRequest_start m w).2) =
                 <[u32 (seq (c w) + 1) := chans (c w)]> (reqs (c w))).
  { unfold sendRequest_start, nextSeq, addRequest, sendMsg. wsimpl.
    by destruct (closeq (c w)). }
  rewrite Hreq, Hs. apply lookup_insert_eq.
Qed.

(** C10 (counterexample). On a new connection [2^32 - 1] Roots are pushed and
    no request is made; the first request then draws [seq = 0] and is
    registered under it, so an incoming message with [rseq = 0] matches its
    sink. *)
Lemma request_under_seq_zero_after_pushes :
  let w1 := Nat.iter (Z.to_nat (2 ^ 32 - 1)) (sendRoot Sample.root5)
              (newConnection Sample.node 1%positive) in
  let w2 := (sendRequest_start RqList w1).2 in
  reqs (c w1) = ∅
  /\ chans (c w1) = 0%nat
  /\ reqs (c w2) !! 0 = Some 0%nat
  /\ isResponse 0 w2 = Some 0%nat.
Proof.
  cbv zeta.
  destruct (iter_sendRoot (Z.to_nat (2 ^ 32 - 1)) Sample.root5
              (newConnection Sample.node 1%positive)) as (Hs & Hr & Hc).
  { cbn. lia. }
  rewrite Z2Nat.id in Hs by lia.
  generalize dependent (Nat.iter (Z.to_nat (2 ^ 32 - 1)) (sendRoot Sample.root5)
                          (newConnection Sample.node 1%positive)).
  intros w1 Hs Hr Hc. unfold isResponse.
  rewrite (sendRequest_start_wraps RqList w1 Hs), Hr, Hc. by split_and!.
Qed.

End StepFacts.

(** * More properties of the code *)

(** ** Frames *)

Module FrameFacts.
Import Codec.

Section WithCollaborators.
Context `{Crypto} `{Callbacks}.
Variable msg_Encode : Msg -> bytes.
Variable msg_Decode : bytes -> result Msg.

(** X1. [decodeRaw] reads a frame [[seq LE][rseq LE][payload]] with a payload
    that is not empty as [(seq, rseq)] and whatever [msg.Decode] makes of the
    payload; the header alone is rejected as too short, the payload decoder
    not asked. *)
Theorem decodeRaw_reads_frame a b payload :
  payload <> [] ->
  decodeRaw msg_Decode (le32 a ++ le32 b ++ payload) =
    match msg_Decode payload with
    | ok m => ok (u32 a, u32 b, m)
    | fail e => fail e
    end
  /\ decodeRaw msg_Decode (le32 a ++ le32 b) = fail "invlaid messege received: too short".
Proof.
  intros Hne. split; [|reflexivity].
  destruct payload as [|p payload]; [done|]. unfold decodeRaw.
  rewrite !length_app. cbn [length le32].
  destruct (Z.ltb_spec (Z.of_nat (4 + (4 + S (length payload)))) 9); [lia|].
  rewrite (CodecFacts.Uint32_le32 a).
  change (drop 4 (le32 a ++ le32 b ++ p :: payload)) with (le32 b ++ p :: payload).
  rewrite (CodecFacts.Uint32_le32 b (p :: payload)).
  reflexivity.
Qed.

(** X2. A frame that [encodeMsg] builds never reaches a pending request of
    the peer (unless one is pending under [seq = 0]): the receive task reads
    [rseq = 0] from it and dispatches the message to the unsolicited
    handlers, under the [rseq] it was sent with in place of its [seq]. *)
Theorem receive_encodeMsg_unsolicited sq rseq m w :
  msg_Decode (msg_Encode m) = ok m ->
  msg_Encode m <> [] ->
  reqs (c w) !! 0 = None ->
  receive msg_Decode (encodeMsg msg_Encode sq rseq m) w =
    match handle (u32 rseq) m w with
    | (w', Some e) => receiving_fatality ("error handling messege: " +:+ e) w'
    | (w', None) => w'
    end.
Proof.
  intros Hrt Hne Hnone. rewrite CodecFacts.encodeMsg_frame. unfold receive, isResponse.
  destruct (msg_Encode m) as [|p payload] eqn:Hem; [done|].
  rewrite !length_app. cbn [length le32].
  destruct (Z.ltb_spec (Z.of_nat (4 + (4 + S (length payload)))) 9); [lia|].
  rewrite (CodecFacts.Uint32_le32 rseq).
  change (drop 4 (le32 rseq ++ [0; 0; 0; 0] ++ p :: payload))
    with (0 :: 0 :: 0 :: 0 :: p :: payload).
  change (Uint32 (0 :: 0 :: 0 :: 0 :: p :: payload)) with 0.
  change (drop 4 (0 :: 0 :: 0 :: 0 :: p :: payload)) with (p :: payload).
  by rewrite Hrt, Hnone.
Qed.

End WithCollaborators.

Lemma decodeRaw_reads_frame_witness :
  decodeRaw Sample.Decode (le32 9 ++ le32 7 ++ [8]) =
    match Sample.Decode [8] with
    | ok m => ok (u32 9, u32 7, m)
    | fail e => fail e
    end
  /\ decodeRaw Sample.Decode (le32 9 ++ le32 7) = fail "invlaid messege received: too short".
Proof. apply (decodeRaw_reads_frame Sample.Decode 9 7 [8]). discriminate. Defined.

(** A request is pending under [seq = 1]; the reply [Ok] to it, as
    [encodeMsg] frames it, is taken for a delayed reply and dropped. *)
Lemma receive_encodeMsg_unsolicited_witness :
  let w := (sendRequest_start RqList Sample.world).2 in
  receive Sample.Decode (encodeMsg Sample_Encode 1 1 Ok) w =
    match handle (u32 1) Ok w with
    | (w', Some e) => receiving_fatality ("error handling messege: " +:+ e) w'
    | (w', None) => w'
    end.
Proof.
  apply (receive_encodeMsg_unsolicited Sample_Encode Sample.Decode 1 1 Ok).
  - reflexivity.
  - discriminate.
  - vm_compute. reflexivity.
Defined.

End FrameFacts.

(** ** The registries of the node *)

Module RegistryFacts.
Import NodeFacts.

(** X3. [connString] tells the direction, the network and the address
    apart: two connections have the same string only if they agree on all
    three. *)
Theorem connString_inj a b s a' b' s' :
  connString a b s = connString a' b' s' -> a = a' /\ b = b' /\ s = s'.
Proof.
  destruct a, b, a', b'; cbv [connString String.append]; intros [=]; by subst.
Qed.

Lemma connString_inj_witness :
  true = true /\ false = false /\ "127.0.0.1:8887" = "127.0.0.1:8887".
Proof. apply (connString_inj true false "127.0.0.1:8887" true false "127.0.0.1:8887"). reflexivity. Defined.

(** What the loop of [delConn] finds. *)
Lemma index_of_Some cn l i : index_of cn l = Some i -> l !! i = Some cn.
Proof.
  revert i. induction l as [|x l IH]; intros i; simpl; [done|].
  case_decide as Hx; [intros [= <-]; by subst|].
  destruct (index_of cn l) as [j|]; simpl; [|done].
  intros [= <-]. by apply IH.
Qed.

Lemma index_of_None cn l : index_of cn l = None <-> cn ∉ l.
Proof.
  induction l as [|x l IH]; simpl; [split; [intros _ Hin; inv Hin|done]|].
  case_decide as Hx.
  - subst. split; [done|]. intros Hn. exfalso. apply Hn. left.
  - destruct (index_of cn l) as [j|]; simpl.
    + split; [done|]. intros Hn. exfalso. apply not_elem_of_cons in Hn as [_ Hn].
      by apply IH in Hn.
    + split; [|done]. intros _. apply not_elem_of_cons. split; [done|]. by apply IH.
Qed.

Lemma index_of_app_fresh cn l : cn ∉ l -> index_of cn (l ++ [cn]) = Some (length l).
Proof.
  induction l as [|x l IH]; simpl; intros Hn.
  - by rewrite decide_True.
  - apply not_elem_of_cons in Hn as [Hne Hn].
    rewrite decide_False by done. by rewrite IH.
Qed.

(** Overwriting [l !! i] with the last element and dropping the last slot
    leaves the elements of [l] but the one at [i]. *)
Lemma swap_remove_perm (l : list ConnId) i x y :
  l !! i = Some y -> last l = Some x ->
  y :: take (length l - 1) (<[i:=x]> l) ≡ₚ l.
Proof.
  intros Hi Hlast. apply last_Some in Hlast as [l' ->].
  rewrite length_app. simpl. replace (length l' + 1 - 1)%nat with (length l') by lia.
  destruct (decide (i < length l')%nat) as [Hlt|Hge].
  - rewrite insert_app_l by done. rewrite take_app_length'; [|by rewrite length_insert].
    rewrite lookup_app_l in Hi by done.
    apply list_elem_of_split_length in Hi as (l1 & l2 & -> & ->).
    rewrite insert_app_r_alt by lia. rewrite Nat.sub_diag. simpl.
    rewrite <- !app_assoc. simpl.
    rewrite <- (Permutation_middle l1 (l2 ++ [x]) y). constructor.
    apply Permutation_app_head. apply Permutation_cons_append.
  - apply lookup_lt_Some in Hi as Hlen. rewrite length_app in Hlen. simpl in Hlen.
    assert (i = length l') as -> by lia.
    rewrite list_lookup_middle in Hi by done. injection Hi as ->.
    rewrite insert_app_r_alt by lia. rewrite Nat.sub_diag. simpl.
    rewrite take_app_length. by rewrite Permutation_cons_append.
Qed.

(** X4. [delConn] takes exactly one occurrence of the connection out of the
    active list, whatever the order it leaves the others in, and clears the
    snapshot; a connection that is not in the list leaves the list as it
    is. *)
Theorem delConn_removes_one cn s :
  conns s ≡ₚ (if decide (cn ∈ conns s) then [cn] else []) ++ conns (delConn cn s)
  /\ (cn ∉ conns s -> conns (delConn cn s) = conns s)
  /\ connsl (delConn cn s) = [].
Proof.
  unfold delConn. cbn [conns set_connsl].
  destruct (index_of cn (conns s)) as [i|] eqn:Hi.
  - pose proof (index_of_Some _ _ _ Hi) as Hl.
    assert (Hin : cn ∈ conns s) by (by eapply list_elem_of_lookup_2).
    destruct (last (conns s)) as [x|] eqn:Hlast.
    + rewrite decide_True by done. split_and!; [|done..]. simpl.
      symmetry. by apply swap_remove_perm.
    + apply last_None in Hlast. rewrite Hlast in Hin. inv Hin.
  - apply index_of_None in Hi. rewrite decide_False by done. by split_and!.
Qed.

(** X5. A connection added with [addConn] and deleted with [delConn] leaves
    the active list as it was, order included, when it was not in the list
    before. *)
Theorem delConn_addConn cn s :
  cn ∉ conns s -> conns (delConn cn (addConn cn s)) = conns s.
Proof.
  intros Hn. unfold delConn, addConn. cbn [conns set_connsl set_conns].
  rewrite index_of_app_fresh by done. rewrite last_snoc.
  cbn [conns set_conns]. rewrite length_app. simpl.
  replace (length (conns s) + 1 - 1)%nat with (length (conns s)) by lia.
  rewrite insert_app_r_alt by lia. rewrite Nat.sub_diag. simpl.
  by rewrite take_app_length.
Qed.

Lemma delConn_addConn_witness :
  conns (delConn 3%positive (addConn 3%positive (set_conns [1; 2]%positive Sample.node)))
  = conns (set_conns [1; 2]%positive Sample.node).
Proof.
  apply (delConn_addConn 3%positive (set_conns [1; 2]%positive Sample.node)).
  apply (bool_decide_unpack _). vm_compute. exact I.
Defined.

(** The first of two entries of the same connection is the one deleted. *)
Example delConn_duplicate :
  conns (delConn 1%positive (set_conns [1; 2; 1; 3]%positive Sample.node)) = [3; 2; 1]%positive.
Proof. reflexivity. Qed.

(** The snapshot of [Connections] is empty or the active list. *)
Lemma connsl_ok_op op s :
  (connsl s = [] \/ connsl s = conns s) ->
  connsl (node_op op s) = [] \/ connsl (node_op op s) = conns (node_op op s).
Proof.
  intros Hok. destruct op; cbn [node_op]; try done.
  - by left.
  - left. unfold delConn. cbn [conns set_connsl].
    destruct (index_of cn (conns s)); [|done]. by destruct (last (conns s)).
  - unfold Connections. destruct (connsl s) eqn:Hl; cbn [fst].
    + by right.
    + by rewrite Hl.
  - unfold Feeds. by destruct (negb _).
  - unfold AddFeed. destruct (feeds s !! pk); [done|].
    by destruct (skyobject.AddFeed _ _) as [? []].
  - unfold delFeed. by destruct (feeds s !! pk).
  - unfold addConnToFeed. by destruct (feeds s !! pk).
  - unfold delConnFromFeed. destruct (feeds s !! pk); [|done]. by case_decide.
  - unfold wantObejct. by destruct (wos s !! key).
Qed.

Lemma node_ops_connsl sc db ops :
  connsl (node_ops ops (NewNode sc db)) = []
  \/ connsl (node_ops ops (NewNode sc db)) = conns (node_ops ops (NewNode sc db)).
Proof.
  induction ops as [|op ops IH] using rev_ind; [by left|].
  unfold node_ops. rewrite foldl_app. by apply connsl_ok_op.
Qed.

(** The second of two calls of [Connections] in a row returns the active
    list. *)
Lemma Connections_twice s :
  (connsl s = [] \/ connsl s = conns s) ->
  (Connections (Connections s).1).2 = conns s
  /\ conns (Connections s).1 = conns s.
Proof.
  intros Hok. unfold Connections.
  destruct (connsl s) as [|x l] eqn:Hl; cbn [fst snd connsl conns set_connsl].
  - split; [|done]. by destruct (conns s).
  - destruct Hok as [?|Hok]; [done|]. by rewrite Hl.
Qed.

Lemma feedsl_ok_op op s : feedsl_ok s -> feedsl_ok (node_op op s).
Proof.
  intros Hok. destruct op; cbn [node_op].
  - by apply (feedsl_ok_same_keys s).
  - apply (feedsl_ok_same_keys s); [| |done]; unfold delConn; cbn [conns set_connsl];
      destruct (index_of _ _); try done; by destruct (last _).
  - apply (feedsl_ok_same_keys s); [| |done]; unfold Connections; by destruct (connsl s).
  - by apply Feeds_exact.
  - by apply AddFeed_feedsl_ok.
  - by apply delFeed_feedsl_ok.
  - by apply addConnToFeed_feedsl_ok.
  - by apply delConnFromFeed_feedsl_ok.
  - apply (feedsl_ok_same_keys s); [| |done]; unfold wantObejct; by destruct (wos s !! key).
  - by apply (feedsl_ok_same_keys s).
  - by apply (feedsl_ok_same_keys s).
Qed.

Lemma node_ops_snoc ops op s : node_ops (ops ++ [op]) s = node_op op (node_ops ops s).
Proof. unfold node_ops. by rewrite foldl_app. Qed.

(** X6. [Connections] returns [nil] on the first call after the active list
    has changed, whatever the list holds: the path that makes the snapshot
    ends in a bare [return] and the named result is not assigned. After any
    run of operations on a new node it returns [nil] or the active list as it
    is, and the second of two calls in a row returns the active list. *)
Theorem Connections_nil_after_change sc db ops cn :
  (Connections (addConn cn (node_ops ops (NewNode sc db)))).2 = []
  /\ (Connections (delConn cn (node_ops ops (NewNode sc db)))).2 = []
  /\ ((Connections (node_ops ops (NewNode sc db))).2 = []
      \/ (Connections (node_ops ops (NewNode sc db))).2
         = conns (node_ops ops (NewNode sc db)))
  /\ (Connections (Connections (node_ops ops (NewNode sc db))).1).2
     = conns (node_ops ops (NewNode sc db)).
Proof.
  pose proof (node_ops_connsl sc db ops) as Hok.
  set (s := node_ops ops (NewNode sc db)) in *. split_and!.
  - reflexivity.
  - unfold Connections, delConn. cbn [conns set_connsl].
    destruct (index_of cn (conns s)); [|done]. by destruct (last (conns s)).
  - unfold Connections. destruct (connsl s) as [|x l] eqn:Hl; cbn [snd]; [by left|].
    right. by destruct Hok.
  - by apply Connections_twice.
Qed.

(** X7. After any run of operations on a new node, [Feeds] returns the shared
    feeds, each once: the snapshot it may return is never stale. *)
Theorem Feeds_lists_shared_feeds sc db ops :
  NoDup (Feeds (node_ops ops (NewNode sc db))).2
  /\ forall f, f ∈ (Feeds (node_ops ops (NewNode sc db))).2
               <-> HasFeed f (node_ops ops (NewNode sc db)) = true.
Proof.
  assert (Hok : feedsl_ok (node_ops ops (NewNode sc db))).
  { induction ops as [|op ops IH] using rev_ind; [by left|].
    rewrite node_ops_snoc. by apply feedsl_ok_op. }
  destruct (Feeds_exact _ Hok) as (Hnd & Hin & _). split; [done|].
  intros f. by rewrite Hin, HasFeed_true.
Qed.

Lemma hasConnFeed_true cn pk s :
  hasConnFeed cn pk s = true <-> cn ∈ default ∅ (feeds s !! pk).
Proof. unfold hasConnFeed. apply bool_decide_eq_true. Qed.

Lemma hasConnFeed_false cn pk s :
  hasConnFeed cn pk s = false <-> cn ∉ default ∅ (feeds s !! pk).
Proof. unfold hasConnFeed. apply bool_decide_eq_false. Qed.

Lemma hasConnFeed_ext cn pk s cn' pk' s' :
  hasConnFeed cn pk s = hasConnFeed cn' pk' s' ->
  cn ∈ default ∅ (feeds s !! pk) <-> cn' ∈ default ∅ (feeds s' !! pk').
Proof. intros Heq. by rewrite <- !hasConnFeed_true, Heq. Qed.

Lemma AddFeed_hasConnFeed pk s :
  (AddFeed pk s).2 = None ->
  HasFeed pk (AddFeed pk s).1 = true
  /\ (forall f, HasFeed f s = true -> HasFeed f (AddFeed pk s).1 = true)
  /\ (forall cn f, hasConnFeed cn f (AddFeed pk s).1 = hasConnFeed cn f s)
  /\ AddFeed pk (AddFeed pk s).1 = ((AddFeed pk s).1, None).
Proof.
  unfold AddFeed. destruct (feeds s !! pk) as [cs|] eqn:Hpk.
  - intros _. cbn [fst]. rewrite Hpk. split_and!; try done.
    apply HasFeed_true. by rewrite Hpk.
  - destruct (skyobject.AddFeed (so s) pk) as [so' [e|]]; [done|]. intros _.
    cbn [fst feeds set_feedsl set_feeds set_so]. rewrite lookup_insert_eq.
    split_and!; [| | |done].
    + apply HasFeed_true. cbn [feeds set_feedsl set_feeds set_so].
      by rewrite lookup_insert_eq.
    + intros f. rewrite !HasFeed_true. cbn [feeds set_feedsl set_feeds set_so].
      intros Hf. destruct (decide (pk = f)) as [->|Hne].
      * by rewrite lookup_insert_eq.
      * by rewrite lookup_insert_ne.
    + intros cn f. unfold hasConnFeed. cbn [feeds set_feedsl set_feeds set_so].
      destruct (decide (pk = f)) as [->|Hne].
      * by rewrite lookup_insert_eq, Hpk.
      * by rewrite lookup_insert_ne.
Qed.

(** X8. When [AddFeed] reports no error the feed is shared; the feeds shared
    before stay shared, every feed has the subscribers it had (a feed that
    was shared keeps them, a new one has none), and adding the feed again
    changes nothing. *)
Theorem AddFeed_shares pk s :
  (AddFeed pk s).2 = None ->
  HasFeed pk (AddFeed pk s).1 = true
  /\ (forall f, HasFeed f s = true -> HasFeed f (AddFeed pk s).1 = true)
  /\ (forall cn f, cn ∈ default ∅ (feeds (AddFeed pk s).1 !! f)
                   <-> cn ∈ default ∅ (feeds s !! f))
  /\ AddFeed pk (AddFeed pk s).1 = ((AddFeed pk s).1, None).
Proof.
  intros Hok. destruct (AddFeed_hasConnFeed pk s Hok) as (H1 & H2 & H3 & H4).
  split_and!; [done..| |done]. intros cn f. apply hasConnFeed_ext, H3.
Qed.

Lemma AddFeed_shares_witness :
  HasFeed (Sample.feed 2) (AddFeed (Sample.feed 2) Sample.node).1 = true
  /\ (forall f, HasFeed f Sample.node = true ->
        HasFeed f (AddFeed (Sample.feed 2) Sample.node).1 = true)
  /\ (forall cn f, cn ∈ default ∅ (feeds (AddFeed (Sample.feed 2) Sample.node).1 !! f)
                   <-> cn ∈ default ∅ (feeds Sample.node !! f))
  /\ AddFeed (Sample.feed 2) (AddFeed (Sample.feed 2) Sample.node).1
     = ((AddFeed (Sample.feed 2) Sample.node).1, None).
Proof. apply (AddFeed_shares (Sample.feed 2) Sample.node). reflexivity. Defined.

(** X9. [delFeed] reports whether the feed was shared; afterwards the feed is
    not shared and has no subscriber, and every other feed is shared as
    before, with the same subscribers. *)
Theorem delFeed_unshares pk s :
  (delFeed pk s).2 = HasFeed pk s
  /\ HasFeed pk (delFeed pk s).1 = false
  /\ (forall cn, cn ∉ default ∅ (feeds (delFeed pk s).1 !! pk))
  /\ (forall f, f <> pk -> feeds (delFeed pk s).1 !! f = feeds s !! f).
Proof.
  setoid_rewrite <- hasConnFeed_false.
  unfold delFeed, hasConnFeed. destruct (feeds s !! pk) as [cs|] eqn:Hpk;
    cbn [fst snd feeds set_feedsl set_feeds].
  - split_and!.
    + symmetry. apply HasFeed_true. by rewrite Hpk.
    + apply HasFeed_false. cbn [feeds set_feedsl set_feeds]. apply lookup_delete_eq.
    + intros cn. rewrite lookup_delete_eq. by apply bool_decide_eq_false.
    + intros f Hne. by rewrite lookup_delete_ne.
  - split_and!; [| |intros cn; rewrite Hpk; by apply bool_decide_eq_false|done].
    + symmetry. by apply HasFeed_false.
    + by apply HasFeed_false.
Qed.

(** X10. [addConnToFeed] subscribes a connection to a shared feed only: it
    reports whether the feed is shared, the connection is among the
    subscribers of the feed afterwards exactly if it is, no feed is added to
    or taken from the shared ones, and every other subscription is as
    before. *)
Theorem addConnToFeed_subscribes cn pk s :
  (addConnToFeed cn pk s).2 = HasFeed pk s
  /\ (cn ∈ default ∅ (feeds (addConnToFeed cn pk s).1 !! pk) <-> HasFeed pk s = true)
  /\ (forall f, HasFeed f (addConnToFeed cn pk s).1 = HasFeed f s)
  /\ (forall cn' f, (cn', f) <> (cn, pk) ->
        cn' ∈ default ∅ (feeds (addConnToFeed cn pk s).1 !! f)
        <-> cn' ∈ default ∅ (feeds s !! f)).
Proof.
  cut ((addConnToFeed cn pk s).2 = HasFeed pk s
       /\ hasConnFeed cn pk (addConnToFeed cn pk s).1 = HasFeed pk s
       /\ (forall f, HasFeed f (addConnToFeed cn pk s).1 = HasFeed f s)
       /\ (forall cn' f, (cn', f) <> (cn, pk) ->
             hasConnFeed cn' f (addConnToFeed cn pk s).1 = hasConnFeed cn' f s)).
  { intros (H1 & H2 & H3 & H4). split_and!; [done| |done|].
    - by rewrite <- hasConnFeed_true, H2.
    - intros cn' f Hne. by apply hasConnFeed_ext, H4. }
  unfold addConnToFeed, hasConnFeed, HasFeed.
  destruct (feeds s !! pk) as [cs|] eqn:Hpk; cbn [fst snd feeds set_feeds].
  - split_and!.
    + symmetry. by apply bool_decide_eq_true.
    + rewrite lookup_insert_eq. cbn [default].
      rewrite (bool_decide_eq_true_2 (is_Some (Some cs))) by done.
      apply bool_decide_eq_true. set_solver.
    + intros f. apply bool_decide_ext. destruct (decide (pk = f)) as [->|Hne].
      * rewrite lookup_insert_eq, Hpk. split; eauto.
      * by rewrite lookup_insert_ne.
    + intros cn' f Hne. apply bool_decide_ext. destruct (decide (pk = f)) as [->|Hnf].
      * rewrite lookup_insert_eq, Hpk. cbn [default].
        assert (cn' <> cn) by congruence. set_solver.
      * by rewrite lookup_insert_ne.
  - rewrite Hpk. by split_and!.
Qed.

(** X11. [delConnFromFeed] reports whether the connection was subscribed to
    the feed; afterwards it is not, the shared feeds are the same, and every
    other subscription is as before. *)
Theorem delConnFromFeed_unsubscribes cn pk s :
  ((delConnFromFeed cn pk s).2 = true <-> cn ∈ default ∅ (feeds s !! pk))
  /\ cn ∉ default ∅ (feeds (delConnFromFeed cn pk s).1 !! pk)
  /\ (forall f, HasFeed f (delConnFromFeed cn pk s).1 = HasFeed f s)
  /\ (forall cn' f, (cn', f) <> (cn, pk) ->
        cn' ∈ default ∅ (feeds (delConnFromFeed cn pk s).1 !! f)
        <-> cn' ∈ default ∅ (feeds s !! f)).
Proof.
  cut ((delConnFromFeed cn pk s).2 = hasConnFeed cn pk s
       /\ hasConnFeed cn pk (delConnFromFeed cn pk s).1 = false
       /\ (forall f, HasFeed f (delConnFromFeed cn pk s).1 = HasFeed f s)
       /\ (forall cn' f, (cn', f) <> (cn, pk) ->
             hasConnFeed cn' f (delConnFromFeed cn pk s).1 = hasConnFeed cn' f s)).
  { intros (H1 & H2 & H3 & H4). split_and!; [| |done|].
    - by rewrite H1, hasConnFeed_true.
    - by apply hasConnFeed_false.
    - intros cn' f Hne. by apply hasConnFeed_ext, H4. }
  unfold delConnFromFeed, hasConnFeed, HasFeed.
  destruct (feeds s !! pk) as [cs|] eqn:Hpk; cbn [default].
  - destruct (decide (cn ∈ cs)) as [Hin|Hnin]; cbn [fst snd feeds set_feeds].
    + split_and!.
      * symmetry. by apply bool_decide_eq_true.
      * rewrite lookup_insert_eq. cbn [default]. apply bool_decide_eq_false. set_solver.
      * intros f. apply bool_decide_ext. destruct (decide (pk = f)) as [->|Hne].
        -- rewrite lookup_insert_eq, Hpk. split; eauto.
        -- by rewrite lookup_insert_ne.
      * intros cn' f Hne. apply bool_decide_ext. destruct (decide (pk = f)) as [->|Hnf].
        -- rewrite lookup_insert_eq, Hpk. cbn [default].
           assert (cn' <> cn) by congruence. set_solver.
        -- by rewrite lookup_insert_ne.
    + rewrite Hpk. cbn [default]. split_and!; try done.
      * symmetry. by apply bool_decide_eq_false.
      * by apply bool_decide_eq_false.
  - cbn [fst snd]. rewrite ?Hpk. cbn [default]. by split_and!.
Qed.

(** X12. The Want Registry: after [wantObejct] the connection waits for the
    key, beside those that waited before, for this key and for every other;
    [gotObject] gives the connections that wait for the key, each once, and
    forgets the key, so that a second [gotObject] gives none; the waiters of
    the other keys stay. *)
Theorem gotObject_gives_waiters key s :
  (forall cn k cn', cn' ∈ default ∅ (wos (wantObejct key cn s) !! k)
                    <-> (k = key /\ cn' = cn) \/ cn' ∈ default ∅ (wos s !! k))
  /\ NoDup (gotObject key s).2
  /\ (forall cn, cn ∈ (gotObject key s).2 <-> cn ∈ default ∅ (wos s !! key))
  /\ (gotObject key (gotObject key s).1).2 = []
  /\ (forall k, k <> key -> wos (gotObject key s).1 !! k = wos s !! k).
Proof.
  split_and!.
  - intros cn k cn'. unfold wantObejct.
    destruct (wos s !! key) as [cs|] eqn:Hk; cbn [wos set_wos];
      (destruct (decide (key = k)) as [<-|Hne];
       [rewrite lookup_insert_eq, ?Hk; cbn [default]; set_solver
       |rewrite lookup_insert_ne by done; naive_solver]).
  - apply NoDup_elements.
  - intros cn. unfold gotObject. cbn [snd]. apply elem_of_elements.
  - unfold gotObject. cbn [fst snd wos set_wos]. rewrite lookup_delete_eq.
    cbn [default]. apply elements_empty.
  - intros k Hne. unfold gotObject. cbn [fst wos set_wos]. by rewrite lookup_delete_ne.
Qed.

(** X13. [delConnFromWantedObjects] takes the connection out of the waiters
    of every key and leaves the other waiters; a [gotObject] that follows does
    not give it, for any key. *)
Theorem delConnFromWantedObjects_forgets cn s :
  (forall k cn', cn' ∈ default ∅ (wos (delConnFromWantedObjects cn s) !! k)
                 <-> cn' <> cn /\ cn' ∈ default ∅ (wos s !! k))
  /\ forall key, cn ∉ (gotObject key (delConnFromWantedObjects cn s)).2.
Proof.
  assert (Hm : forall k cn', cn' ∈ default ∅ (wos (delConnFromWantedObjects cn s) !! k)
                             <-> cn' <> cn /\ cn' ∈ default ∅ (wos s !! k)).
  { intros k cn'. unfold delConnFromWantedObjects. cbn [wos set_wos].
    rewrite lookup_fmap. destruct (wos s !! k) as [cs|]; cbn [fmap option_fmap option_map default];
      set_solver. }
  split; [done|]. intros key. unfold gotObject. cbn [snd].
  rewrite elem_of_elements, Hm. tauto.
Qed.

(** X14. [broadcastRoot] calls [SendRoot] once on every connection subscribed
    to the feed of the Root, the one to leave out excepted, and on no other;
    [Publish] leaves none out. *)
Theorem broadcastRoot_targets r e s :
  NoDup (broadcastRoot r e s)
  /\ (forall cn, cn ∈ broadcastRoot r e s
                 <-> cn ∈ default ∅ (feeds s !! registry.Pub r) /\ Some cn <> e)
  /\ (forall cn, cn ∈ Publish r s <-> cn ∈ default ∅ (feeds s !! registry.Pub r)).
Proof.
  unfold Publish, broadcastRoot. split_and!.
  - apply NoDup_filter, NoDup_elements.
  - intros cn. rewrite list_elem_of_filter, elem_of_elements. tauto.
  - intros cn. rewrite list_elem_of_filter, elem_of_elements.
    split; [tauto|]. intros Hin. split; [done|exact Hin].
Qed.

(** The test in the loop of [pingsLoop]: the larger of the two idle times
    is compared. *)
Lemma pingsLoop_pings_idle interval now lastRead lastWrite :
  pingsLoop_pings interval now lastRead lastWrite = true
  <-> interval <= now - lastRead \/ interval <= now - lastWrite.
Proof.
  unfold pingsLoop_pings, maxDuration. rewrite negb_true_iff, Z.ltb_ge.
  destruct (Z.ltb_spec (now - lastWrite) (now - lastRead)); lia.
Qed.

(** X15. A tick of [pingsLoop] ranges over what [Connections] returns. On the
    first tick after the active list has changed that is [nil], and no
    connection is pinged, however long it has been idle. On any tick only
    active connections are pinged whose last read or last write is at least
    [PingInterval] ago; on the tick that follows a tick, the active list
    unchanged, exactly those are. *)
Theorem pingsLoop_tick_pings sc db ops interval now lr lw now' lr' lw' cn :
  (pingsLoop_tick interval now lr lw (addConn cn (node_ops ops (NewNode sc db)))).2 = []
  /\ (forall cn', cn' ∈ (pingsLoop_tick interval now lr lw (node_ops ops (NewNode sc db))).2 ->
        cn' ∈ conns (node_ops ops (NewNode sc db))
        /\ (interval <= now - lr cn' \/ interval <= now - lw cn'))
  /\ (forall cn',
        cn' ∈ (pingsLoop_tick interval now' lr' lw'
                 (pingsLoop_tick interval now lr lw (node_ops ops (NewNode sc db))).1).2
        <-> cn' ∈ conns (node_ops ops (NewNode sc db))
            /\ (interval <= now' - lr' cn' \/ interval <= now' - lw' cn')).
Proof.
  pose proof (node_ops_connsl sc db ops) as Hok.
  set (s := node_ops ops (NewNode sc db)) in *. split_and!.
  - reflexivity.
  - intros cn'. unfold pingsLoop_tick, Connections.
    destruct (connsl s) as [|x l] eqn:Hl; cbn [snd]; [by intros ?%elem_of_nil|].
    destruct Hok as [?|Hok]; [done|]. rewrite Hok.
    rewrite list_elem_of_filter, pingsLoop_pings_idle. tauto.
  - intros cn'. destruct (Connections_twice s Hok) as [H2 _].
    unfold pingsLoop_tick at 2. destruct (Connections s) as [s1 cs1] eqn:H1.
    cbn [fst snd] in *. unfold pingsLoop_tick. destruct (Connections s1) as [s2 cs2].
    cbn [snd] in *. subst cs2.
    rewrite list_elem_of_filter, pingsLoop_pings_idle. tauto.
Qed.

End RegistryFacts.

(** ** The boards of the forum *)

Module BbsFacts.

Lemma updateBoard_loop_filter key Boards boards :
  bbs.updateBoard_loop key Boards boards = boards ++ filter (fun b => b <> key) Boards.
Proof.
  revert boards. induction Boards as [|b rest IH]; intros boards; simpl.
  - by rewrite app_nil_r.
  - rewrite IH, filter_cons. case_decide; [|done]. by rewrite <- app_assoc.
Qed.

(** X16. [updateBoard] puts the new key of the board first and keeps every
    other board, in its order and as often as it was there; the old key is
    kept nowhere (unless the new key is the old one). *)
Theorem updateBoard_replaces newBoardKey key Boards :
  bbs.updateBoard newBoardKey key Boards = newBoardKey :: filter (fun b => b <> key) Boards
  /\ (forall b, b ∈ bbs.updateBoard newBoardKey key Boards
                <-> b = newBoardKey \/ (b <> key /\ b ∈ Boards))
  /\ (length (bbs.updateBoard newBoardKey key Boards) <= S (length Boards))%nat.
Proof.
  assert (Heq : bbs.updateBoard newBoardKey key Boards
                = newBoardKey :: filter (fun b => b <> key) Boards).
  { unfold bbs.updateBoard. by rewrite updateBoard_loop_filter. }
  rewrite Heq. split_and!; [done| |].
  - intros b. rewrite elem_of_cons, list_elem_of_filter. tauto.
  - simpl. pose proof (length_filter (fun b => b <> key) Boards). lia.
Qed.

End BbsFacts.

(** ** What a connection sends, and how it ends *)

Module ConnFacts.
Import StepFacts.

Lemma sent_step_refl P cn : sent_step P cn cn.
Proof. by apply sent_none. Qed.

(** A [seq] is drawn, and a frame is sent under it. *)
Lemma sent_step_send (P : Z -> Prop) rseq m w w1 :
  P rseq ->
  seq (c w1) = u32 (seq (c w) + 1) -> drawn (c w1) = drawn (c w) + 1 ->
  sendq (c w1) = sendq (c w) ->
  sent_step P (c w) (c (sendMsg (u32 (seq (c w) + 1)) rseq m w1)).
Proof.
  intros HP Hs Hd Hq. unfold sendMsg. destruct (closeq (c w1)).
  - by apply sent_drawn.
  - eapply sent_one; wsimpl; [exact HP|done..|by rewrite Hq].
Qed.

Lemma sent_step_sendOk rseq w : sent_step (eq rseq) (c w) (c (sendOk rseq w)).
Proof. unfold sendOk, nextSeq. by apply sent_step_send. Qed.

Lemma sent_step_sendErr rseq e w : sent_step (eq rseq) (c w) (c (sendErr rseq e w)).
Proof. unfold sendErr, nextSeq. by apply sent_step_send. Qed.

Section WithCollaborators.
Context `{Crypto} `{Callbacks}.
Variable msg_Encode : Msg -> bytes.
Variable msg_Decode : bytes -> result Msg.

Lemma handleSub_sent sq feed w : sent_step (eq sq) (c w) (c (handleSub sq feed w).1).
Proof.
  unfold handleSub. case_decide; [apply sent_step_refl|].
  destruct (hasConnFeed _ _ _); [apply sent_step_sendOk|].
  destruct (onSubscribeRemote _ _ _) as [nd [e|]]; cbn [fst].
  - apply (sent_step_sendErr sq e (set_n nd w)).
  - destruct (negb _); cbn [fst].
    + apply (sent_step_sendErr sq _ (set_n nd w)).
    + apply (sent_step_sendOk sq (set_n _ (set_n nd w))).
Qed.

Lemma handleRoot_sent feed nonce sq val sig w :
  c (handleRoot feed nonce sq val sig w).1 = c w
  /\ (handleRoot feed nonce sq val sig w).2 = None.
Proof.
  assert (Hr : c (handleRoot_receive val sig w).1 = c w
               /\ (handleRoot_receive val sig w).2 = None).
  { unfold handleRoot_receive. destruct (skyobject.ReceivedRoot _ _ _) as [so' [r|e]];
      [destruct (registry.IsFull r)|]; done. }
  unfold handleRoot.
  destruct (skyobject.LastRootSeq _ _ _) as [last [[]|]];
    try destruct (sq <=? last); done.
Qed.

(** The handlers queue at most one frame, a reply to the request. *)
Lemma handle_sent sq m w : sent_step (eq sq) (c w) (c (handle sq m w).1).
Proof.
  destruct m; cbn [handle fst]; try apply sent_step_refl.
  - apply handleSub_sent.
  - unfold handleUnsub. case_decide; apply sent_step_refl.
  - unfold handleRqList. destruct (negb _); cbn [fst]; [apply sent_step_sendErr|].
    unfold nextSeq. destruct (Feeds _) as [nd l]. cbn [fst].
    by apply sent_step_send.
  - destruct (handleRoot_sent Feed Nonce Seq Value Sig w) as [-> _]. apply sent_step_refl.
  - by apply sent_none.
  - unfold handleRqPreview, nextSeq.
    destruct (skyobject.LastRoot _ _ _) as [[r|] [e|]]; cbn [fst];
      by apply sent_step_send.
Qed.

(** When a handler reports an error it has changed nothing. *)
Lemma handle_error sq m w :
  is_Some (handle sq m w).2 <->
  m = Sub blankPubKey \/ m = Unsub blankPubKey \/ m = Ping \/ m = Pong.
Proof.
  destruct m; cbn [handle snd].
  - unfold handleSub. case_decide as Hb.
    + subst. split; [by left | by eexists].
    + destruct (hasConnFeed _ _ _);
        [|destruct (onSubscribeRemote _ _ _) as [nd [e|]]; [|destruct (negb _)]];
        (split; [by intros [? [=]] | intros [[=]|[[=]|[[=]|[=]]]]; by subst]).
  - unfold handleUnsub. case_decide as Hb.
    + subst. split; [by right; left | by eexists].
    + split; [by intros [? [=]] | intros [[=]|[[=]|[[=]|[=]]]]; by subst].
  - unfold handleRqList. destruct (negb _); [|destruct (nextSeq _), (Feeds _)];
      (split; [by intros [? [=]] | by intros [[=]|[[=]|[[=]|[=]]]]]).
  - split; [by intros [? [=]] | by intros [[=]|[[=]|[[=]|[=]]]]].
  - destruct (handleRoot_sent Feed Nonce Seq Value Sig w) as [_ ->].
    split; [by intros [? [=]] | by intros [[=]|[[=]|[[=]|[=]]]]].
  - split; [by intros [? [=]] | by intros [[=]|[[=]|[[=]|[=]]]]].
  - split; [by intros [? [=]] | by intros [[=]|[[=]|[[=]|[=]]]]].
  - unfold handleRqPreview.
    destruct (skyobject.LastRoot _ _ _) as [[r|] [e|]]; destruct (nextSeq _);
      (split; [by intros [? [=]] | by intros [[=]|[[=]|[[=]|[=]]]]]).
  - split; [by intros [? [=]] | by intros [[=]|[[=]|[[=]|[=]]]]].
  - split; [by intros [? [=]] | by intros [[=]|[[=]|[[=]|[=]]]]].
  - split; [by right; right; left | by eexists].
  - split; [by right; right; right | by eexists].
Qed.

Lemma handle_error_unchanged sq m w : is_Some (handle sq m w).2 -> (handle sq m w).1 = w.
Proof.
  intros He. by apply handle_error in He as [-> | [-> | [-> | ->]]].
Qed.

(** [close] closes [closeq] and the transport, and queues nothing. *)
Lemma close_closes reason w :
  closeo (c w) = OnceNew ->
  closeq (c (close reason w).1) = true
  /\ fcClosed (c (close reason w).1) = true
  /\ closeo (c (close reason w).1) <> OnceNew
  /\ sendq (c (close reason w).1) = sendq (c w).
Proof.
  intros Hnew. unfold close, close_body. rewrite Hnew. wsimpl.
  by destruct (await (c w) =? 0).
Qed.

Lemma receiving_fatality_closes e w :
  closeo (c w) = OnceNew ->
  closeq (c (receiving_fatality e w)) = true
  /\ fcClosed (c (receiving_fatality e w)) = true
  /\ closeo (c (receiving_fatality e w)) <> OnceNew
  /\ sendq (c (receiving_fatality e w)) = sendq (c w).
Proof.
  intros Hnew. unfold receiving_fatality.
  pose proof (close_closes (Some e) w Hnew) as Hc.
  by destruct (close (Some e) w) as [w' []].
Qed.

(** X17. A frame of fewer than 9 bytes, a payload that does not decode, and
    a message whose handler reports an error are fatal: on a connection not
    yet closed the receive task closes [closeq] and the transport, and sends
    nothing to the peer. *)
Theorem receive_fatal_closes raw w :
  closeo (c w) = OnceNew ->
  (Z.of_nat (length raw) < 9
   \/ (exists e, msg_Decode (drop 4 (drop 4 raw)) = fail e)
   \/ (exists m, msg_Decode (drop 4 (drop 4 raw)) = ok m
                 /\ reqs (c w) !! Codec.Uint32 (drop 4 raw) = None
                 /\ is_Some (handle (Codec.Uint32 raw) m w).2)) ->
  closeq (c (receive msg_Decode raw w)) = true
  /\ fcClosed (c (receive msg_Decode raw w)) = true
  /\ closeo (c (receive msg_Decode raw w)) <> OnceNew
  /\ sendq (c (receive msg_Decode raw w)) = sendq (c w).
Proof.
  intros Hnew Hcause. unfold receive, isResponse.
  destruct (Z.ltb_spec (Z.of_nat (length raw)) 9) as [Hlt|Hge];
    [by apply receiving_fatality_closes|].
  destruct Hcause as [?|[(e & ->)|(m & -> & -> & Herr)]];
    [lia | by apply receiving_fatality_closes |].
  pose proof (handle_error_unchanged _ _ _ Herr) as Hw.
  destruct (handle _ m w) as [w' [e|]]; cbn [fst snd] in *; [|by destruct Herr].
  subst w'. by apply receiving_fatality_closes.
Qed.

(** X18. [handle] reports an error, which is fatal to the connection, for a
    [Sub] or an [Unsub] of the blank feed and for a kind it does not list,
    and for nothing else: not for a Root that does not verify, not for a
    delayed reply; and a message it reports an error for has changed
    nothing. *)
Theorem handle_error_iff_blank_or_unlisted sq m w :
  (is_Some (handle sq m w).2 <->
     m = Sub blankPubKey \/ m = Unsub blankPubKey \/ m = Ping \/ m = Pong)
  /\ (is_Some (handle sq m w).2 -> (handle sq m w).1 = w).
Proof. split; [apply handle_error | apply handle_error_unchanged]. Qed.

(** X19. A handler queues at most one frame for a message. The frame
    carries the [seq] of the message in its [seq] word (the handler passes it
    as [rseq], and [encodeMsg] writes [rseq] there) and zero in its [rseq]
    word, then the payload of the reply. *)
Theorem handle_queues_one_frame sq m w :
  exists l, sendq_raw msg_Encode (c (handle sq m w).1) = sendq_raw msg_Encode (c w) ++ l
    /\ (length l <= 1)%nat
    /\ Forall (fun raw => exists m', raw = Codec.le32 sq ++ [0; 0; 0; 0] ++ msg_Encode m') l.
Proof.
  unfold sendq_raw.
  destruct (handle_sent sq m w) as [_ _ Hq|_ _ Hq|rseq m' <- _ _ Hq]; rewrite Hq.
  - exists []. rewrite app_nil_r. split_and!; [done | simpl; lia | constructor].
  - exists []. rewrite app_nil_r. split_and!; [done | simpl; lia | constructor].
  - rewrite fmap_app. eexists. split; [reflexivity|]. split; [simpl; lia|].
    repeat constructor. exists m'. apply CodecFacts.encodeMsg_frame.
Qed.

(** X21. [sendRequest] on an open connection registers a new reply channel
    under the [seq] it draws, the next one, and queues one frame: the payload
    of the request after eight zero bytes, its [seq] and [rseq] words (the
    [rseq] of a request is 0, and [encodeMsg] writes it over the [seq]). When
    its [select] is over the table of pending requests is as it was before
    the call, provided that no request was pending under that [seq]. *)
Theorem sendRequest_registers_then_clears m sel w :
  reqs (c w) !! u32 (seq (c w) + 1) = None ->
  closeq (c w) = false ->
  reqs (c (sendRequest_start m w).2) !! u32 (seq (c w) + 1) = Some (chans (c w))
  /\ (forall sq, sq <> u32 (seq (c w) + 1) ->
        reqs (c (sendRequest_start m w).2) !! sq = reqs (c w) !! sq)
  /\ sendq_raw msg_Encode (c (sendRequest_start m w).2)
     = sendq_raw msg_Encode (c w) ++ [[0; 0; 0; 0; 0; 0; 0; 0] ++ msg_Encode m]
  /\ reqs (c (sendRequest_finish (sendRequest_start m w).1 sel (sendRequest_start m w).2).1)
     = reqs (c w).
Proof.
  intros Hnone Hopen.
  unfold sendq_raw, sendRequest_finish, delRequest, sendRequest_start, nextSeq, addRequest,
    sendMsg.
  wsimpl. rewrite Hopen. wsimpl.
  split_and!.
  - apply lookup_insert_eq.
  - intros sq Hne. by apply lookup_insert_ne.
  - by rewrite fmap_app.
  - rewrite delete_insert_eq. by apply delete_id.
Qed.

(** X22. The callers of [sendRequest] never succeed: whichever case of its
    [select] is taken, [RemoteFeeds] returns an error and no feeds,
    [Subscribe] returns an error and subscribes nothing, and [Get] returns an
    error and no value. *)
Theorem requests_never_succeed sel feed key w :
  RemoteFeeds_finish (sendRequest_result sel) =
    ([], Some match sel with
              | SelSend => "invalid response type <nil>"
              | SelTimeout => ErrTimeout
              | SelClosed => ErrClosed
              end)
  /\ Subscribe_finish feed (sendRequest_result sel) w =
     (w, Some match sel with
              | SelSend => "invalid response type <nil>"
              | SelTimeout => ErrTimeout
              | SelClosed => ErrClosed
              end)
  /\ Get_finish key (sendRequest_result sel) w =
     (w, ([], Some match sel with
                   | SelSend => "invalid msg type received: <nil>"
                   | SelTimeout => ErrTimeout
                   | SelClosed => ErrClosed
                   end)).
Proof. by destruct sel. Qed.

(** X23. [close] is single-shot: a second call, with whatever reason,
    changes nothing, so [onDisconenct] is not called a second time and the
    reason of the first call stands. *)
Theorem close_again_changes_nothing r1 r2 w :
  (close r2 (close r1 w).1).1 = (close r1 w).1.
Proof.
  unfold close at 1.
  assert (Hn : closeo (c (close r1 w).1) = OnceNew -> False).
  { unfold close, close_body. destruct (closeo (c w)) eqn:Ho; wsimpl; try congruence.
    by destruct (_ =? 0). }
  destruct (closeo (c (close r1 w).1)); [by destruct Hn|done..].
Qed.

(** X24. On a connection that was not started, [close] runs to its end:
    however often it is called after the first call, [closeq] and the
    transport are closed and [onDisconenct] has been called exactly once,
    with the reason of the first call. *)
Theorem close_not_started_disconnects_once nd cid r rs :
  exists w, steps msg_Decode (StClose r :: (StClose <$> rs)) (newConnection nd cid) = Some w
    /\ disconnects w = [r]
    /\ closeq (c w) = true
    /\ fcClosed (c w) = true
    /\ closeo (c w) = OnceDone.
Proof.
  cbn [steps step].
  set (w1 := (close r (newConnection nd cid)).1).
  assert (H1 : disconnects w1 = [r] /\ closeq (c w1) = true /\ fcClosed (c w1) = true
               /\ closeo (c w1) = OnceDone) by done.
  clearbody w1. revert w1 H1. induction rs as [|r' rs IH]; intros w1 H1.
  - by exists w1.
  - cbn [fmap list_fmap steps step]. apply IH.
    destruct H1 as (? & ? & ? & Ho). unfold close. by rewrite Ho.
Qed.

End WithCollaborators.

(** A frame of four bytes arrives on the running connection of the
    samples. *)
Lemma receive_fatal_closes_witness :
  closeq (c (receive Sample.Decode [1; 2; 3; 4] Sample.world)) = true
  /\ fcClosed (c (receive Sample.Decode [1; 2; 3; 4] Sample.world)) = true
  /\ closeo (c (receive Sample.Decode [1; 2; 3; 4] Sample.world)) <> OnceNew
  /\ sendq (c (receive Sample.Decode [1; 2; 3; 4] Sample.world)) = sendq (c Sample.world).
Proof.
  apply (receive_fatal_closes Sample.Decode [1; 2; 3; 4] Sample.world).
  - reflexivity.
  - left. vm_compute. reflexivity.
Defined.

Lemma sendRequest_registers_then_clears_witness :
  reqs (c (sendRequest_start RqList Sample.world).2) !! u32 (seq (c Sample.world) + 1)
  = Some (chans (c Sample.world))
  /\ (forall sq, sq <> u32 (seq (c Sample.world) + 1) ->
        reqs (c (sendRequest_start RqList Sample.world).2) !! sq
        = reqs (c Sample.world) !! sq)
  /\ sendq_raw Sample_Encode (c (sendRequest_start RqList Sample.world).2)
     = sendq_raw Sample_Encode (c Sample.world)
       ++ [[0; 0; 0; 0; 0; 0; 0; 0] ++ Sample_Encode RqList]
  /\ reqs (c (sendRequest_finish (sendRequest_start RqList Sample.world).1 SelTimeout
                (sendRequest_start RqList Sample.world).2).1)
     = reqs (c Sample.world).
Proof.
  apply (sendRequest_registers_then_clears Sample_Encode RqList SelTimeout Sample.world).
  - reflexivity.
  - reflexivity.
Defined.

End ConnFacts.
